(** * A UTXO block indexer: the chain state machine over a transactional store

    The development embeds the block service of the indexer
    ([BlockService.addBlock], [processTransaction], [rollback],
    [getBalance]), the three repositories it drives and the schema
    constraints of the tables they write, and states the ledger properties
    of the design document over that embedding. It then embeds the
    remaining statements of the repositories, the connection pool and the
    three routes, and proves what the code keeps, reads back and refuses.

    Conventions. Numbers are integers ([Z]) and strings are byte strings.
    One call of the service runs at a time. The store is PostgreSQL: a
    statement sent through the checked-out [client] runs in the transaction
    opened by [BEGIN]; a query sent through [getPool()] runs on another
    connection and sees committed rows only. *)

From Stdlib Require Import ZArith Lia List Ascii String DecimalString.
From stdpp Require Import base option list strings gmap fin_maps sorting.

Local Open Scope string_scope.
Local Open Scope list_scope.
Local Open Scope Z_scope.

(** ** SHA-256 (FIPS 180-4), as computed by
    [crypto.createHash('sha256').update(data).digest('hex')] *)

Module SHA256.

Definition mask32 : Z := 0xffffffff.
Definition w32 (x : Z) : Z := Z.land x mask32.
Definition add32 (x y : Z) : Z := w32 (x + y).
Definition rotr (n x : Z) : Z :=
  Z.lor (Z.shiftr x n) (w32 (Z.shiftl x (32 - n))).
Definition shr (n x : Z) : Z := Z.shiftr x n.
Definition xor3 (x y z : Z) : Z := Z.lxor (Z.lxor x y) z.

Definition Ch (x y z : Z) : Z :=
  Z.lxor (Z.land x y) (Z.land (Z.lxor x mask32) z).
Definition Maj (x y z : Z) : Z :=
  xor3 (Z.land x y) (Z.land x z) (Z.land y z).
Definition Sigma0 (x : Z) : Z := xor3 (rotr 2 x) (rotr 13 x) (rotr 22 x).
Definition Sigma1 (x : Z) : Z := xor3 (rotr 6 x) (rotr 11 x) (rotr 25 x).
Definition sigma0 (x : Z) : Z := xor3 (rotr 7 x) (rotr 18 x) (shr 3 x).
Definition sigma1 (x : Z) : Z := xor3 (rotr 17 x) (rotr 19 x) (shr 10 x).

(** The first sixty-four primes. *)
Definition primes : list Z :=
  [ 2; 3; 5; 7; 11; 13; 17; 19; 23; 29; 31; 37; 41; 43; 47; 53;
    59; 61; 67; 71; 73; 79; 83; 89; 97; 101; 103; 107; 109; 113; 127; 131;
    137; 139; 149; 151; 157; 163; 167; 173; 179; 181; 191; 193; 197; 199; 211; 223;
    227; 229; 233; 239; 241; 251; 257; 263; 269; 271; 277; 281; 283; 293; 307; 311 ].

(** The largest [r] with [r ^ 3 <= n], for [n] below [2 ^ 120]; found bit by
    bit from the top. *)
Definition cube_root (n : Z) : Z :=
  fold_left (fun r i => let r' := r + 2 ^ Z.of_nat i in
                        if r' ^ 3 <=? n then r' else r)
            (rev (seq 0 40)) 0.

(** The round constants: the first 32 bits of the fractional parts of the
    cube roots of the primes. *)
Definition K : list Z :=
  Eval vm_compute in map (fun p => w32 (cube_root (p * 2 ^ 96))) primes.

(** The initial hash value: the same of the square roots of the first
    eight primes. *)
Definition H0 : list Z :=
  Eval vm_compute in map (fun p => w32 (Z.sqrt (p * 2 ^ 64))) (firstn 8 primes).

Definition bytes_of_string (s : string) : list Z :=
  map (fun c => Z.of_N (N_of_ascii c)) (list_ascii_of_string s).

(** Big-endian bytes of [x], [n] of them. *)
Fixpoint be_bytes (n : nat) (x : Z) : list Z :=
  match n with
  | O => []
  | S n' => Z.land (Z.shiftr x (8 * Z.of_nat n')) 0xff :: be_bytes n' x
  end.

(** Message, one 1 bit, zeros up to 56 mod 64, the bit length on 64 bits. *)
Definition pad (msg : list Z) : list Z :=
  let len := Z.of_nat (length msg) in
  let zeros := Z.to_nat ((55 - len) mod 64) in
  msg ++ 0x80 :: repeat 0 zeros ++ be_bytes 8 (8 * len).

Fixpoint words_of_bytes (fuel : nat) (bs : list Z) : list Z :=
  match fuel, bs with
  | S fuel', b0 :: b1 :: b2 :: b3 :: rest =>
      (b0 * 16777216 + b1 * 65536 + b2 * 256 + b3) :: words_of_bytes fuel' rest
  | _, _ => []
  end.

(** The message schedule: [win] holds the last sixteen words. *)
Fixpoint schedule (n : nat) (win : list Z) : list Z :=
  match n with
  | O => []
  | S n' =>
      let w := add32 (add32 (sigma1 (nth 14 win 0)) (nth 9 win 0))
                     (add32 (sigma0 (nth 1 win 0)) (nth 0 win 0)) in
      w :: schedule n' (skipn 1 win ++ [w])
  end.

Definition round (st : list Z) (kw : Z * Z) : list Z :=
  match st with
  | [a; b; c; d; e; f; g; h] =>
      let t1 := add32 (add32 (add32 h (Sigma1 e)) (add32 (Ch e f g) (fst kw))) (snd kw) in
      let t2 := add32 (Sigma0 a) (Maj a b c) in
      [add32 t1 t2; a; b; c; add32 d t1; e; f; g]
  | _ => st
  end.

Definition compress (h : list Z) (blockw : list Z) : list Z :=
  let w := blockw ++ schedule 48 blockw in
  let st := fold_left round (combine K w) h in
  map (fun p => add32 (fst p) (snd p)) (combine h st).

Fixpoint blocks (fuel : nat) (ws : list Z) : list (list Z) :=
  match fuel, ws with
  | S fuel', _ :: _ => firstn 16 ws :: blocks fuel' (skipn 16 ws)
  | _, _ => []
  end.

Definition digest (msg : list Z) : list Z :=
  let bs := pad msg in
  let ws := words_of_bytes (length bs) bs in
  fold_left compress (blocks (length ws) ws) H0.

Definition hex_digit (x : Z) : ascii :=
  match String.get (Z.to_nat x) "0123456789abcdef" with
  | Some c => c
  | None => "0"%char
  end.

Definition hex_of_byte (b : Z) : string :=
  String (hex_digit (Z.shiftr b 4)) (String (hex_digit (Z.land b 0xf)) EmptyString).

Definition hex_of_word (w : Z) : string :=
  String.concat "" (map hex_of_byte (be_bytes 4 w)).

Definition hex (s : string) : string :=
  String.concat "" (map hex_of_word (digest (bytes_of_string s))).

End SHA256.

(** ** JavaScript values *)

(** [`${height}`] for an integer. *)
Definition string_of_Z (z : Z) : string := NilZero.string_of_int (Z.to_int z).

(** [x || d] for a nullable number: [null], [undefined] and [0] give [d]. *)
Definition js_or (x : option Z) (d : Z) : Z :=
  match x with
  | Some v => if decide (v = 0) then d else v
  | None => d
  end.

(** ** Interfaces (the request payload and the rows) *)

Record Output := mkOutput { o_address : string; o_value : Z }.
Record Input := mkInput { txId : string; index : Z }.
Record Transaction := mkTransaction
  { t_id : string; inputs : list Input; outputs : list Output }.
Record Block := mkBlock
  { b_id : string; height : Z; transactions : list Transaction }.

(** A row of [outputs]; the interface [OutputRecord] names six columns,
    the table has [spent_by_tx] and [spent_at_height] as well. *)
Record OutputRecord := mkOutputRecord
  { tx_id : string; output_index : Z; address : string; value : Z;
    block_height : Z; spent : bool;
    spent_by_tx : option string; spent_at_height : option Z }.

Record BlockRecord := mkBlockRecord { r_id : string; r_height : Z }.

(** The error objects [{ error: ... }], one constructor per message. *)
Inductive ValidationError :=
| InvalidHeight (expected got : Z)
| InvalidBlockId (expected got : string)
| UnspentOutputNotFound (txid : string) (idx : Z)
| UnbalancedTransaction (inputSum outputSum : Z) (txid : string)
| TargetAboveCurrent.

(** ** The database (schema.ts) *)

(** [blocks (id PRIMARY KEY, height UNIQUE)],
    [outputs (PRIMARY KEY (tx_id, output_index),
              FOREIGN KEY (block_height) REFERENCES blocks(height) ON DELETE CASCADE)],
    [balances (address PRIMARY KEY, balance)]. *)
Record Db := mkDb
  { tbl_blocks : list BlockRecord;
    tbl_outputs : list OutputRecord;
    tbl_balances : gmap string Z }.

Definition emptyDb : Db := mkDb [] [] ∅.

Definition set_blocks (f : list BlockRecord → list BlockRecord) (w : Db) : Db :=
  mkDb (f (tbl_blocks w)) (tbl_outputs w) (tbl_balances w).
Definition set_outputs (f : list OutputRecord → list OutputRecord) (w : Db) : Db :=
  mkDb (tbl_blocks w) (f (tbl_outputs w)) (tbl_balances w).
Definition set_balances (f : gmap string Z → gmap string Z) (w : Db) : Db :=
  mkDb (tbl_blocks w) (tbl_outputs w) (f (tbl_balances w)).

(** Errors the store raises; the service lets them propagate. *)
Inductive DbError :=
| UniqueViolation (constraint : string)
| ForeignKeyViolation (constraint : string).

(** A statement of the service runs against two views of the database:
    a query sent through [getPool()] goes to another connection than the
    checked-out [client] and sees the committed tables only; a statement
    sent through [client] sees and changes the tables of the open
    transaction. [Sql A] takes the committed tables and the client's, and
    either raises or returns a value and the client's tables. *)
Definition Sql (A : Type) : Type := Db → Db → DbError + A * Db.

Global Instance Sql_ret : MRet Sql := λ A a, λ _ w, inr (a, w).
Global Instance Sql_bind : MBind Sql := λ A B f m, λ c w,
  match m c w with
  | inl e => inl e
  | inr (a, w') => f a c w'
  end.

Definition pool_query {A} (q : Db → A) : Sql A := λ c w, inr (q c, w).
Definition client_exec (f : Db → Db) : Sql unit := λ _ w, inr (tt, f w).

(** The client's tables at [BEGIN], and what is committed after [COMMIT]
    and after [ROLLBACK]. *)
Definition BEGIN (committed : Db) : Db := committed.
Definition COMMIT (committed client : Db) : Db := client.
Definition ROLLBACK (committed client : Db) : Db := committed.

(** ** BlockRepository *)

Definition max_height (bs : list BlockRecord) : option Z :=
  foldr (λ b acc, Some (match acc with
                        | Some m => Z.max (r_height b) m
                        | None => r_height b
                        end)) None bs.

(** [SELECT MAX(height) as height FROM blocks], then [|| 0]; sent through
    [getPool()]. *)
Definition getCurrentHeight (db : Db) : Z := js_or (max_height (tbl_blocks db)) 0.

(** [INSERT INTO blocks (id, height)], sent through [client]. *)
Definition insertBlock (id : string) (h : Z) : Sql unit := λ _ w,
  if decide (id ∈ r_id <$> tbl_blocks w) then inl (UniqueViolation "blocks_pkey")
  else if decide (h ∈ r_height <$> tbl_blocks w) then inl (UniqueViolation "blocks_height_key")
  else inr (tt, set_blocks (λ bs, bs ++ [mkBlockRecord id h]) w).

(** [DELETE FROM blocks WHERE height > $1]; the outputs that reference a
    deleted block go with it. *)
Definition deleteBlocksAboveHeight (h : Z) : Sql unit := client_exec (λ w,
  let gone := r_height <$> filter (λ b, h < r_height b) (tbl_blocks w) in
  mkDb (filter (λ b, ¬ h < r_height b) (tbl_blocks w))
       (filter (λ o, block_height o ∉ gone) (tbl_outputs w))
       (tbl_balances w)).

(** ** OutputRepository *)

Definition is_output (txid : string) (idx : Z) (o : OutputRecord) : Prop :=
  tx_id o = txid ∧ output_index o = idx.

Global Instance is_output_dec txid idx o : Decision (is_output txid idx o).
Proof. unfold is_output. apply _. Defined.

(** [SELECT ... WHERE tx_id = $1 AND output_index = $2 AND spent = false],
    first row or [null]; sent through [getPool()]. *)
Definition getUnspentOutput (db : Db) (txid : string) (idx : Z) : option OutputRecord :=
  head (filter (λ o, is_output txid idx o ∧ spent o = false) (tbl_outputs db)).

(** [INSERT INTO outputs ...], sent through [client]: refused when the
    identity is taken or the block row is missing. *)
Definition insertOutput (txid : string) (outputIndex : Z) (addr : string)
    (v : Z) (blockHeight : Z) : Sql unit := λ _ w,
  if decide (Exists (is_output txid outputIndex) (tbl_outputs w))
  then inl (UniqueViolation "outputs_pkey")
  else if decide (blockHeight ∈ r_height <$> tbl_blocks w)
  then inr (tt, set_outputs (λ os, os ++
         [mkOutputRecord txid outputIndex addr v blockHeight false None None]) w)
  else inl (ForeignKeyViolation "outputs_block_height_fkey").

Definition mark_spent (txid : string) (idx : Z) (spentByTx : string)
    (spentAtHeight : Z) (o : OutputRecord) : OutputRecord :=
  if decide (is_output txid idx o)
  then mkOutputRecord (tx_id o) (output_index o) (address o) (value o)
         (block_height o) true (Some spentByTx) (Some spentAtHeight)
  else o.

(** [UPDATE outputs SET spent = true, spent_by_tx = $3, spent_at_height = $4
    WHERE tx_id = $1 AND output_index = $2], sent through [client]. *)
Definition markOutputAsSpent (txid : string) (idx : Z) (spentByTx : string)
    (spentAtHeight : Z) : Sql unit :=
  client_exec (set_outputs (fmap (mark_spent txid idx spentByTx spentAtHeight))).

(** [DELETE FROM outputs WHERE block_height > $1]. *)
Definition deleteOutputsAboveHeight (h : Z) : Sql unit :=
  client_exec (set_outputs (filter (λ o, ¬ h < block_height o))).

(** ** BalanceRepository *)

(** [SELECT balance FROM balances WHERE address = $1], then [?.balance || 0]. *)
Definition getBalance (db : Db) (addr : string) : Z := js_or (tbl_balances db !! addr) 0.

(** [INSERT ... ON CONFLICT (address) DO UPDATE SET balance = balances.balance + $2]. *)
Definition upsert (addr : string) (delta : Z) (m : gmap string Z) : gmap string Z :=
  <[addr := match m !! addr with Some b => b + delta | None => delta end]> m.

Definition updateBalance (addr : string) (delta : Z) : Sql unit :=
  client_exec (set_balances (upsert addr delta)).

(** ** utils/crypto *)

Definition calculateBlockId (h : Z) (txs : list Transaction) : string :=
  let txIds := String.concat "" (t_id <$> txs) in
  let data := String.append (string_of_Z h) txIds in
  SHA256.hex data.

(** ** BlockService *)

(** What a call of the service does: it returns ([null] is [None]) or it
    throws. *)
Inductive Completion :=
| Returns (r : option ValidationError)
| Throws (e : DbError).

(** The loop over [tx.inputs]; [inl] is the early [return] of an error. *)
Fixpoint processInputs (txid : string) (blockHeight : Z) (ins : list Input)
    (inputSum : Z) : Sql (ValidationError + Z) :=
  match ins with
  | [] => mret (inr inputSum)
  | input :: rest =>
      output ← pool_query (λ c, getUnspentOutput c (txId input) (index input));
      match output with
      | None => mret (inl (UnspentOutputNotFound (txId input) (index input)))
      | Some output =>
          let inputSum := inputSum + value output in
          _ ← markOutputAsSpent (txId input) (index input) txid blockHeight;
          _ ← updateBalance (address output) (- value output);
          processInputs txid blockHeight rest inputSum
      end
  end.

(** The loop over [tx.outputs], from index [i]. *)
Fixpoint processOutputs (txid : string) (blockHeight : Z) (i : Z)
    (outs : list Output) (outputSum : Z) : Sql Z :=
  match outs with
  | [] => mret outputSum
  | output :: rest =>
      let outputSum := outputSum + o_value output in
      _ ← insertOutput txid i (o_address output) (o_value output) blockHeight;
      _ ← updateBalance (o_address output) (o_value output);
      processOutputs txid blockHeight (i + 1) rest outputSum
  end.

Definition processTransaction (tx : Transaction) (blockHeight : Z)
    : Sql (option ValidationError) :=
  r ← processInputs (t_id tx) blockHeight (inputs tx) 0;
  match r with
  | inl err => mret (Some err)
  | inr inputSum =>
      outputSum ← processOutputs (t_id tx) blockHeight 0 (outputs tx) 0;
      if decide (0 < Z.of_nat (length (inputs tx)) ∧ inputSum ≠ outputSum)
      then mret (Some (UnbalancedTransaction inputSum outputSum (t_id tx)))
      else mret None
  end.

(** The loop over [block.transactions] in [addBlock]. *)
Fixpoint processTransactions (txs : list Transaction) (blockHeight : Z)
    : Sql (option ValidationError) :=
  match txs with
  | [] => mret None
  | tx :: rest =>
      validationError ← processTransaction tx blockHeight;
      match validationError with
      | Some err => mret (Some err)
      | None => processTransactions rest blockHeight
      end
  end.

(** [BEGIN], the two checks, the block row, the transactions, then
    [COMMIT]; [ROLLBACK] on a validation error of a transaction and on an
    exception. The two early returns leave without either: nothing has been
    written by then. *)
Definition addBlock (db : Db) (block : Block) : Completion * Db :=
  let client := BEGIN db in
  let currentHeight := getCurrentHeight db in
  if decide (height block ≠ currentHeight + 1)
  then (Returns (Some (InvalidHeight (currentHeight + 1) (height block))), db)
  else
    let expectedId := calculateBlockId (height block) (transactions block) in
    if decide (b_id block ≠ expectedId)
    then (Returns (Some (InvalidBlockId expectedId (b_id block))), db)
    else
      match (_ ← insertBlock (b_id block) (height block);
             processTransactions (transactions block) (height block)) db client with
      | inr (Some validationError, client) =>
          (Returns (Some validationError), ROLLBACK db client)
      | inr (None, client) => (Returns None, COMMIT db client)
      | inl error => (Throws error, ROLLBACK db client)
      end.

(** [UPDATE outputs SET spent = false, spent_by_tx = NULL,
     spent_at_height = NULL WHERE spent_at_height > $1]. *)
Definition unspend_above (h : Z) (o : OutputRecord) : OutputRecord :=
  match spent_at_height o with
  | Some s =>
      if decide (h < s)
      then mkOutputRecord (tx_id o) (output_index o) (address o) (value o)
             (block_height o) false None None
      else o
  | None => o
  end.

(** [SELECT address, SUM(value) ... GROUP BY address] over [rows]. *)
Definition sumByAddress (rows : list OutputRecord) : gmap string Z :=
  foldr (λ o m, <[address o := value o + default 0 (m !! address o)]> m) ∅ rows.

(** [INSERT INTO balances (address, balance) SELECT ...]: plain inserts,
    which the primary key refuses for an address already there. *)
Definition insertBalances (rows : gmap string Z) : Sql unit := λ _ w,
  if decide (rows ##ₘ tbl_balances w)
  then inr (tt, set_balances (λ m, rows ∪ m) w)
  else inl (UniqueViolation "balances_pkey").

Definition rollback_statements (targetHeight : Z) : Sql unit :=
  _ ← client_exec (set_outputs (fmap (unspend_above targetHeight)));
  _ ← deleteOutputsAboveHeight targetHeight;
  _ ← deleteBlocksAboveHeight targetHeight;
  _ ← client_exec (set_balances (λ _, ∅));
  w ← (λ c w, inr (w, w)) : Sql Db;
  insertBalances (sumByAddress
    (filter (λ o, block_height o ≤ targetHeight ∧ spent o = false) (tbl_outputs w))).

Definition rollback (db : Db) (targetHeight : Z) : Completion * Db :=
  let currentHeight := getCurrentHeight db in
  if decide (currentHeight < targetHeight)
  then (Returns (Some TargetAboveCurrent), db)
  else
    let client := BEGIN db in
    match rollback_statements targetHeight db client with
    | inr (_, client) => (Returns None, COMMIT db client)
    | inl error => (Throws error, ROLLBACK db client)
    end.

(** ** Notions the properties are stated with *)

(** The identity [(transactionId, outputIndex)] of a ledger row. *)
Definition okey (o : OutputRecord) : string * Z := (tx_id o, output_index o).

(** Sum of the values of the committed unspent outputs a list of inputs
    refers to; [None] when one of them is missing or spent. *)
Fixpoint sumInputs (c : Db) (ins : list Input) : option Z :=
  match ins with
  | [] => Some 0
  | i :: rest =>
      match getUnspentOutput c (txId i) (index i), sumInputs c rest with
      | Some o, Some s => Some (value o + s)
      | _, _ => None
      end
  end.

Definition sumOutputs (outs : list Output) : Z :=
  foldr (λ o s, o_value o + s) 0 outs.

(** The identities a transaction gives its outputs: [(tx.id, 0)],
    [(tx.id, 1)], ... *)
Fixpoint newKeys (txid : string) (i : Z) (outs : list Output) : list (string * Z) :=
  match outs with
  | [] => []
  | _ :: rest => (txid, i) :: newKeys txid (i + 1) rest
  end.

(** Sum of [value] over the ledger rows of [addr] with [spent = false]
    created at or below the current height. *)
Definition unspentSum (db : Db) (addr : string) : Z :=
  foldr (λ o s, value o + s) 0
    (filter (λ o, address o = addr ∧ spent o = false
                  ∧ block_height o ≤ getCurrentHeight db) (tbl_outputs db)).

(** States the service can bring the store to, from the empty tables. *)
Inductive Reachable : Db → Prop :=
| reach_empty : Reachable emptyDb
| reach_addBlock db block : Reachable db → Reachable (snd (addBlock db block))
| reach_rollback db h : Reachable db → Reachable (snd (rollback db h)).

(** Accepting a list of blocks one after the other; [None] as soon as one
    of them is not accepted. *)
Fixpoint acceptAll (db : Db) (bs : list Block) : option Db :=
  match bs with
  | [] => Some db
  | b :: rest =>
      match addBlock db b with
      | (Returns None, db') => acceptAll db' rest
      | _ => None
      end
  end.

(** No ledger row was created or spent above height [h]. *)
Definition ledger_within (db : Db) (h : Z) : Prop :=
  Forall (λ o, block_height o ≤ h ∧ ∀ s, spent_at_height o = Some s → s ≤ h)
         (tbl_outputs db).

(** The identities a transaction, and a block, give their outputs. *)
Definition txKeys (tx : Transaction) : list (string * Z) :=
  newKeys (t_id tx) 0 (outputs tx).

Definition blockKeys (txs : list Transaction) : list (string * Z) :=
  txs ≫= txKeys.

(** The transaction has an input that is not a committed unspent output,
    and [e] reports it. *)
Definition missingInput (c : Db) (tx : Transaction) (e : ValidationError) : Prop :=
  ∃ i, i ∈ inputs tx ∧ e = UnspentOutputNotFound (txId i) (index i)
       ∧ getUnspentOutput c (txId i) (index i) = None.

(** The transaction has inputs whose sum is not the sum of its outputs, and
    [e] reports it. *)
Definition unbalanced (c : Db) (tx : Transaction) (e : ValidationError) : Prop :=
  ∃ s, sumInputs c (inputs tx) = Some s ∧ inputs tx ≠ []
       ∧ s ≠ sumOutputs (outputs tx)
       ∧ e = UnbalancedTransaction s (sumOutputs (outputs tx)) (t_id tx).

(** All inputs are committed unspent outputs and, unless there is none,
    their sum is the sum of the outputs. *)
Definition conserves (c : Db) (tx : Transaction) : Prop :=
  ∃ s, sumInputs c (inputs tx) = Some s
       ∧ (inputs tx ≠ [] → s = sumOutputs (outputs tx)).

(** What [rollback] leaves of the ledger. *)
Definition rolledBackOutputs (t : Z) (os : list OutputRecord) : list OutputRecord :=
  filter (λ o, ¬ t < block_height o) (unspend_above t <$> os).

Definition lower_hex (c : ascii) : Prop :=
  c ∈ list_ascii_of_string "0123456789abcdef".

(** The value a statement returns, if it does not raise. *)
Definition verdict {A} (r : DbError + A * Db) : option A :=
  match r with
  | inr (a, _) => Some a
  | inl _ => None
  end.

(** ** Closed forms of the tables after a run *)

(** A spend: the identity of the output and the transaction that spends it. *)
Abbreviation Mark := (string * Z * string)%type.

Definition apply_mark (h : Z) (o : OutputRecord) (m : Mark) : OutputRecord :=
  mark_spent m.1.1 m.1.2 m.2 h o.

Definition apply_marks (h : Z) (ms : list Mark) (o : OutputRecord) : OutputRecord :=
  foldl (apply_mark h) o ms.

Definition inputMarks (txid : string) (ins : list Input) : list Mark :=
  (λ i, (txId i, index i, txid)) <$> ins.

Definition blockMarks (txs : list Transaction) : list Mark :=
  txs ≫= λ tx, inputMarks (t_id tx) (inputs tx).

Fixpoint newRows (txid : string) (h : Z) (i : Z) (outs : list Output) : list OutputRecord :=
  match outs with
  | [] => []
  | o :: rest =>
      mkOutputRecord txid i (o_address o) (o_value o) h false None None
      :: newRows txid h (i + 1) rest
  end.

Definition blockRows (h : Z) (txs : list Transaction) : list OutputRecord :=
  txs ≫= λ tx, newRows (t_id tx) h 0 (outputs tx).

(** Balance changes, in the order they are applied. *)
Definition apply_deltas (ds : list (string * Z)) (m : gmap string Z) : gmap string Z :=
  foldl (λ m d, upsert d.1 d.2 m) m ds.

Definition debits (c : Db) (ins : list Input) : list (string * Z) :=
  omap (λ i, (λ o, (address o, - value o)) <$> getUnspentOutput c (txId i) (index i)) ins.

Definition credits (outs : list Output) : list (string * Z) :=
  (λ o, (o_address o, o_value o)) <$> outs.

Definition blockDeltas (c : Db) (txs : list Transaction) : list (string * Z) :=
  txs ≫= λ tx, debits c (inputs tx) ++ credits (outputs tx).

(** Sum of [value] over the rows of [addr] with [spent = false]. *)
Definition ledgerSum (rows : list OutputRecord) (addr : string) : Z :=
  foldr (λ o s, value o + s) 0
    (filter (λ o, address o = addr ∧ spent o = false) rows).

(** Sum of the changes that concern [addr]. *)
Definition deltaSum (addr : string) (ds : list (string * Z)) : Z :=
  foldr (λ d s, (if decide (d.1 = addr) then d.2 else 0) + s) 0 ds.

(** The unspent row of identity [k], as the spend check finds it. *)
Definition unspentAt (rows : list OutputRecord) (k : string * Z) : option OutputRecord :=
  head (filter (λ o, is_output k.1 k.2 o ∧ spent o = false) rows).

Definition markDebits (rows : list OutputRecord) (ms : list Mark) : list (string * Z) :=
  omap (λ m, (λ o, (address o, - value o)) <$> unspentAt rows m.1) ms.

(** An unspent row carries no trace of a spend. *)
Definition ledger_clean (db : Db) : Prop :=
  Forall (λ o, spent o = false → spent_by_tx o = None ∧ spent_at_height o = None)
         (tbl_outputs db).

(** What the schema and the two operations keep of the ledger, whatever
    the blocks: identities are unique, nothing lies above the current
    height, unspent rows are clean. *)
Definition Consistent (db : Db) : Prop :=
  NoDup (okey <$> tbl_outputs db)
  ∧ ledger_within db (getCurrentHeight db)
  ∧ ledger_clean db.

(** The balance projection agrees with the ledger. *)
Definition Agrees (db : Db) : Prop := ∀ a, getBalance db a = unspentSum db a.

(** The identities the inputs of a block refer to, in order. *)
Definition blockInputs (b : Block) : list (string * Z) :=
  (blockMarks (transactions b)).*1.

(** States reached with candidate blocks none of which lists the same
    output twice among its inputs. *)
Inductive ReachableOnce : Db → Prop :=
| once_empty : ReachableOnce emptyDb
| once_addBlock db block :
    ReachableOnce db → NoDup (blockInputs block) →
    ReachableOnce (snd (addBlock db block))
| once_rollback db h : ReachableOnce db → ReachableOnce (snd (rollback db h)).

(** ** Sample chains *)

Module Sample.

Definition block (h : Z) (txs : list Transaction) : Block :=
  mkBlock (calculateBlockId h txs) h txs.

(** Height 1: a coinbase paying 100 to addr1. *)
Definition tx1 := mkTransaction "tx1" [] [mkOutput "addr1" 100].
Definition block1 := block 1 [tx1].
Definition chain1 : Db := snd (addBlock emptyDb block1).

(** Height 2: tx1:0 spent once, 60 to addr2 and 40 to addr3. *)
Definition tx2 := mkTransaction "tx2" [mkInput "tx1" 0]
                    [mkOutput "addr2" 60; mkOutput "addr3" 40].
Definition block2 := block 2 [tx2].
Definition chain2 : Db := snd (addBlock chain1 block2).

(** Height 3 on top of [chain2]: tx1:0 again. *)
Definition tx3 := mkTransaction "tx3" [mkInput "tx1" 0] [mkOutput "addr3" 100].
Definition block3 := block 3 [tx3].

(** Height 2, another candidate: tx1:0 listed twice, 200 to addr2. *)
Definition tx2_twice := mkTransaction "tx2" [mkInput "tx1" 0; mkInput "tx1" 0]
                          [mkOutput "addr2" 200].
Definition block2_twice := block 2 [tx2_twice].
Definition chain2_twice : Db := snd (addBlock chain1 block2_twice).

Definition block3_empty := block 3 [].
Definition chain3_twice : Db := snd (addBlock chain2_twice block3_empty).

(** Height 1, another candidate: a coinbase and a transaction that
    spends the coinbase's output in the same block. *)
Definition tx_spend_tx1 := mkTransaction "tx2" [mkInput "tx1" 0] [mkOutput "addr2" 100].
Definition block1_chained := block 1 [tx1; tx_spend_tx1].

(** Height 2: a coinbase that succeeds, then an input that is not there. *)
Definition tx_mint := mkTransaction "tx4" [] [mkOutput "addr4" 7].
Definition tx_missing := mkTransaction "tx5" [mkInput "nonexistent" 0] [mkOutput "addr5" 7].
Definition block2_late_error := block 2 [tx_mint; tx_missing].


(** Height 2: a transaction named tx1 again, so its output 0 is taken. *)
Definition tx1_again := mkTransaction "tx1" [] [mkOutput "addr9" 5].
Definition block2_duplicate := block 2 [tx1_again].

Definition block5 := block 5 [tx1].

End Sample.

(** ** The repositories: the remaining statements *)

(** The columns the queries below select: [tx_id, output_index, address,
    value, block_height, spent]. The object returned has no [spent_by_tx]
    and no [spent_at_height]. *)
Definition selected (o : OutputRecord) : OutputRecord :=
  mkOutputRecord (tx_id o) (output_index o) (address o) (value o)
                 (block_height o) (spent o) None None.

(** [SELECT tx_id, ..., spent FROM outputs WHERE tx_id = $1 AND
    output_index = $2], first row or [null]; sent through [getPool()]. *)
Definition getOutput (db : Db) (txid : string) (idx : Z) : option OutputRecord :=
  selected <$> head (filter (is_output txid idx) (tbl_outputs db)).

(** [SELECT tx_id, ..., spent FROM outputs WHERE block_height > $1
    ORDER BY block_height DESC], sent through [client]. Rows of equal height
    come in an order the store chooses; the merge sort fixes one, and
    nothing below depends on it. *)
Definition height_desc (a b : OutputRecord) : Prop :=
  block_height b ≤ block_height a.

#[global] Instance height_desc_dec : RelDecision height_desc.
Proof. intros a b. unfold height_desc. apply _. Defined.

Definition getOutputsAboveHeight (w : Db) (h : Z) : list OutputRecord :=
  merge_sort height_desc
    (selected <$> filter (λ o, h < block_height o) (tbl_outputs w)).

(** [SELECT tx_id, ..., spent FROM outputs WHERE tx_id = $1
    ORDER BY output_index ASC], sent through [getPool()]. *)
Definition index_asc (a b : OutputRecord) : Prop :=
  output_index a ≤ output_index b.

#[global] Instance index_asc_dec : RelDecision index_asc.
Proof. intros a b. unfold index_asc. apply _. Defined.

Definition getOutputsByTxId (db : Db) (txid : string) : list OutputRecord :=
  merge_sort index_asc (selected <$> filter (λ o, tx_id o = txid) (tbl_outputs db)).

(** [SET spent = false]: the other columns stay. *)
Definition unmark (o : OutputRecord) : OutputRecord :=
  mkOutputRecord (tx_id o) (output_index o) (address o) (value o)
                 (block_height o) false (spent_by_tx o) (spent_at_height o).

(** [if (txIds.length === 0) return;] then
    [UPDATE outputs SET spent = false WHERE tx_id = ANY($1::text[])]. *)
Definition unmarkOutputsAsSpentByTxIds (txIds : list string) : Sql unit :=
  if decide (length txIds = 0%nat) then mret tt
  else client_exec (set_outputs (fmap (λ o,
         if decide (tx_id o ∈ txIds) then unmark o else o))).

(** [DELETE FROM balances WHERE address = $1]. *)
Definition deleteBalance (addr : string) : Sql unit :=
  client_exec (set_balances (delete addr)).

(** [INSERT ... ON CONFLICT (address) DO UPDATE SET balance = $2]. *)
Definition setBalance (addr : string) (balance : Z) : Sql unit :=
  client_exec (set_balances (<[addr := balance]>)).

(** [SELECT id, height FROM blocks WHERE height = $1], first row or [null];
    sent through [getPool()]. *)
Definition getBlockByHeight (db : Db) (h : Z) : option BlockRecord :=
  head (filter (λ b, r_height b = h) (tbl_blocks db)).

(** [SELECT id, height FROM blocks ORDER BY height ASC]. *)
Definition height_asc (a b : BlockRecord) : Prop := r_height a ≤ r_height b.

#[global] Instance height_asc_dec : RelDecision height_asc.
Proof. intros a b. unfold height_asc. apply _. Defined.

Definition getAllBlocks (db : Db) : list BlockRecord :=
  merge_sort height_asc (tbl_blocks db).

(** ** database/connection *)

Record PoolConfig := mkPoolConfig
  { user : string; database : string; host : string; port : Z;
    max : Z; idleTimeoutMillis : Z; connectionTimeoutMillis : Z }.

(** The module variable [pool]: [null] or the pool. *)
Definition ConnState : Type := option PoolConfig.

(** [new Pool({ ... })]: the options are written in the source. *)
Definition newPool : PoolConfig :=
  mkPoolConfig "postgres" "blockchain_indexer" "/var/run/postgresql" 5433
               20 30000 2000.

Definition initializePool (connectionString : string) (st : ConnState)
    : PoolConfig * ConnState :=
  match st with
  | None => (newPool, Some newPool)
  | Some p => (p, Some p)
  end.

(** [inl] is the thrown [Error]. *)
Definition getPool (st : ConnState) : string + PoolConfig :=
  match st with
  | None => inl "Database pool not initialized. Call initializePool first."
  | Some p => inr p
  end.

Definition closePool (st : ConnState) : ConnState := None.

(** The calls that change the module variable. *)
Inductive ConnCall :=
| CallInitialize (connectionString : string)
| CallClose.

Definition connCall (st : ConnState) (c : ConnCall) : ConnState :=
  match c with
  | CallInitialize cs => snd (initializePool cs st)
  | CallClose => closePool st
  end.

(** ** routes *)

Inductive ReplyBody :=
| ErrorText (error : string)
| ErrorOf (e : ValidationError)
| SuccessBody
| BalanceBody (addr : string) (balance : Z)
| RollbackBody (h : Z).

Record Reply := mkReply { status : Z; body : ReplyBody }.

(** [POST /blocks]. The body is absent or a block; [!block.id] is the empty
    string, [!block.height] is 0, and [!block.transactions] is never true
    of an array. An exception of the service is caught and answered 500. *)
Definition postBlocks (db : Db) (reqBody : option Block) : Reply * Db :=
  match reqBody with
  | None => (mkReply 400 (ErrorText "Invalid block format"), db)
  | Some block =>
      if decide (b_id block = "" ∨ height block = 0)
      then (mkReply 400 (ErrorText "Invalid block format"), db)
      else
        match addBlock db block with
        | (Returns (Some validationError), db') =>
            (mkReply 400 (ErrorOf validationError), db')
        | (Returns None, db') => (mkReply 200 SuccessBody, db')
        | (Throws _, db') => (mkReply 500 (ErrorText "Internal server error"), db')
        end
  end.


(** [POST /rollback?height=...]. The query parameter is absent or a string.
    [parseInt] is JavaScript's, [None] being [NaN]; a parameter it reads as
    [Infinity] is one it reads as a height above the current one. *)
Definition postRollback (parseInt : string → option Z) (db : Db)
    (heightParam : option string) : Reply * Db :=
  match heightParam with
  | None => (mkReply 400 (ErrorText "Height query parameter is required"), db)
  | Some s =>
      if decide (s = "")
      then (mkReply 400 (ErrorText "Height query parameter is required"), db)
      else
        match parseInt s with
        | None => (mkReply 400 (ErrorText "Invalid height parameter"), db)
        | Some targetHeight =>
            if decide (targetHeight < 0)
            then (mkReply 400 (ErrorText "Invalid height parameter"), db)
            else
              match rollback db targetHeight with
              | (Returns (Some validationError), db') =>
                  (mkReply 400 (ErrorOf validationError), db')
              | (Returns None, db') =>
                  (mkReply 200 (RollbackBody targetHeight), db')
              | (Throws _, db') =>
                  (mkReply 500 (ErrorText "Internal server error"), db')
              end
        end
  end.

(** ** More notions the properties are stated with *)

(** The constraints of schema.ts: the primary keys, the unique height and
    the foreign key of [outputs]. *)
Definition schema_ok (db : Db) : Prop :=
  NoDup (r_id <$> tbl_blocks db)
  ∧ NoDup (r_height <$> tbl_blocks db)
  ∧ NoDup (okey <$> tbl_outputs db)
  ∧ Forall (λ o, block_height o ∈ r_height <$> tbl_blocks db) (tbl_outputs db).

(** A row created at a height from 1 to [cur] whose three spend columns go
    together: unspent with nothing recorded, or spent with the transaction
    and a height above the one it was created at and at most [cur]. *)
Definition spend_coherent (cur : Z) (o : OutputRecord) : Prop :=
  1 ≤ block_height o ≤ cur
  ∧ match spent o, spent_by_tx o, spent_at_height o with
    | false, None, None => True
    | true, Some _, Some s => block_height o < s ≤ cur
    | _, _, _ => False
    end.




(** The ledger rows a transaction id created, in the order of the table. *)
Definition txRows (txid : string) (rows : list OutputRecord) : list OutputRecord :=
  filter (λ o, tx_id o = txid) rows.

(** The rows of one transaction id are numbered 0, 1, ... *)
Definition numbered (rows : list OutputRecord) : Prop :=
  ∀ txid (j : nat) o, txRows txid rows !! j = Some o → output_index o = Z.of_nat j.

(** The rows of one transaction id were created by one block. *)
Definition one_block (rows : list OutputRecord) : Prop :=
  ∀ o1 o2, o1 ∈ rows → o2 ∈ rows → tx_id o1 = tx_id o2 →
           block_height o1 = block_height o2.

(** Two states that hold the same block rows and the same ledger and read
    the same balance for every address. *)
Definition same_view (db1 db2 : Db) : Prop :=
  tbl_blocks db1 = tbl_blocks db2
  ∧ tbl_outputs db1 = tbl_outputs db2
  ∧ ∀ a, getBalance db1 a = getBalance db2 a.

(** ** More sample chains *)

Module Cases.
Import Sample.


(** A transaction with two outputs, spent one by one. *)
Definition tx_pair := mkTransaction "pair" []
  [mkOutput "addr1" 60; mkOutput "addr2" 40].
Definition block_pair := block 1 [tx_pair].
Definition chain_pair : Db := snd (addBlock emptyDb block_pair).

(** Transaction ids that concatenate to the same string. *)
Definition tx_ab := mkTransaction "ab" [] [mkOutput "addr1" 1].
Definition tx_a := mkTransaction "a" [] [].
Definition tx_b := mkTransaction "b" [] [mkOutput "addr2" 2].
Definition tx_noid := mkTransaction "" [] [mkOutput "addr3" 3].

(** A [parseInt] for the parameters used below. *)
Definition parseInt_digit (s : string) : option Z :=
  if decide (s = "0") then Some 0
  else if decide (s = "1") then Some 1
  else if decide (s = "7") then Some 7
  else if decide (s = "-1") then Some (-1)
  else None.

End Cases.

(** * Lemmas *)

(** ** The statement monad *)

Ltac sql_unfold :=
  unfold updateBalance, markOutputAsSpent, deleteOutputsAboveHeight,
         deleteBlocksAboveHeight in *;
  unfold mbind, Sql_bind, mret, Sql_ret, pool_query, client_exec,
         BEGIN, COMMIT, ROLLBACK in *.

Lemma Sql_bind_inr {A B} (m : Sql A) (f : A → Sql B) c w a w' :
  m c w = inr (a, w') → (m ≫= f) c w = f a c w'.
Proof. intros E. sql_unfold. by rewrite E. Qed.

Lemma Sql_bind_inl {A B} (m : Sql A) (f : A → Sql B) c w e :
  m c w = inl e → (m ≫= f) c w = inl e.
Proof. intros E. sql_unfold. by rewrite E. Qed.

Lemma Sql_bind_inv {A B} (m : Sql A) (f : A → Sql B) c w b w'' :
  (m ≫= f) c w = inr (b, w'') →
  ∃ a w', m c w = inr (a, w') ∧ f a c w' = inr (b, w'').
Proof.
  sql_unfold. destruct (m c w) as [e|[a w']]; [done|]. eauto.
Qed.

(** ** Ledger identities *)

Lemma Exists_is_output txid idx (l : list OutputRecord) :
  Exists (is_output txid idx) l ↔ (txid, idx) ∈ okey <$> l.
Proof.
  rewrite Exists_exists, list_elem_of_fmap. unfold is_output, okey.
  split.
  - intros (o & Ho & <- & <-). eauto.
  - intros (o & [= -> ->] & Ho). eauto.
Qed.

Lemma okey_mark_spent txid idx by_tx at_h o :
  okey (mark_spent txid idx by_tx at_h o) = okey o.
Proof. unfold mark_spent. by case_decide. Qed.

Lemma okeys_mark_spent txid idx by_tx at_h (l : list OutputRecord) :
  okey <$> (mark_spent txid idx by_tx at_h <$> l) = okey <$> l.
Proof.
  rewrite <- list_fmap_compose. apply list_fmap_ext.
  intros i o _. apply okey_mark_spent.
Qed.

(** ** The loop over the inputs *)

(** It never raises, leaves [blocks] and the ledger identities alone, and
    its verdict is a function of the committed tables. *)
Lemma processInputs_run txid h ins : ∀ acc c w,
  ∃ r w', processInputs txid h ins acc c w = inr (r, w')
    ∧ tbl_blocks w' = tbl_blocks w
    ∧ okey <$> tbl_outputs w' = okey <$> tbl_outputs w
    ∧ match r with
      | inr s => sumInputs c ins = Some (s - acc)
      | inl e => sumInputs c ins = None ∧
          ∃ i, i ∈ ins ∧ e = UnspentOutputNotFound (txId i) (index i)
               ∧ getUnspentOutput c (txId i) (index i) = None
      end.
Proof.
  induction ins as [|i rest IH]; intros acc c w; simpl.
  - exists (inr acc), w. sql_unfold. repeat split; f_equal; lia.
  - sql_unfold. destruct (getUnspentOutput c (txId i) (index i)) as [o|] eqn:Eo.
    + simpl.
      destruct (IH (acc + value o) c
        (set_balances (upsert (address o) (- value o))
           (set_outputs (fmap (mark_spent (txId i) (index i) txid h)) w)))
        as (r & w' & -> & Hb & Hk & Hr).
      exists r, w'. split; [done|]. split; [done|].
      split; [by rewrite Hk; simpl; rewrite okeys_mark_spent|].
      destruct r as [e|s].
      * destruct Hr as (-> & j & Hj & -> & Hn). split; [done|].
        exists j. split; [by right|done].
      * rewrite Hr. f_equal. lia.
    + exists (inl (UnspentOutputNotFound (txId i) (index i))), w.
      repeat split; try done. exists i. split; [by left|done].
Qed.

(** ** The loop over the outputs *)

Lemma newKeys_index txid i outs k :
  k ∈ newKeys txid i outs → k.1 = txid ∧ i ≤ k.2 < i + Z.of_nat (length outs).
Proof.
  revert i. induction outs as [|o rest IH]; intros i; simpl.
  - by intros ?%elem_of_nil.
  - intros [->|Hk%IH]%elem_of_cons; simpl; [split; [done|lia]|].
    destruct Hk as [-> ?]. split; [done|lia].
Qed.

Lemma newKeys_nth txid i outs (j : nat) :
  (j < length outs)%nat → (txid, i + Z.of_nat j) ∈ newKeys txid i outs.
Proof.
  revert i j. induction outs as [|o rest IH]; intros i j; simpl; [lia|].
  destruct j as [|j]; intros Hj.
  - replace (i + Z.of_nat 0) with i by lia. by left.
  - right. replace (i + Z.of_nat (S j)) with (i + 1 + Z.of_nat j) by lia.
    apply IH. lia.
Qed.

Lemma sumOutputs_app outs1 outs2 :
  sumOutputs (outs1 ++ outs2) = sumOutputs outs1 + sumOutputs outs2.
Proof. induction outs1; simpl; lia. Qed.

Lemma insertOutput_fresh txid i addr v h c w :
  (txid, i) ∉ okey <$> tbl_outputs w →
  h ∈ r_height <$> tbl_blocks w →
  insertOutput txid i addr v h c w
  = inr (tt, set_outputs (λ os, os ++ [mkOutputRecord txid i addr v h false None None]) w).
Proof.
  intros Hk Hh. unfold insertOutput.
  rewrite decide_False by (by rewrite Exists_is_output).
  by rewrite decide_True.
Qed.

Lemma insertOutput_taken txid i addr v h c w :
  (txid, i) ∈ okey <$> tbl_outputs w →
  insertOutput txid i addr v h c w = inl (UniqueViolation "outputs_pkey").
Proof.
  intros Hk. unfold insertOutput.
  by rewrite decide_True by (by rewrite Exists_is_output).
Qed.

(** With the block row in place, the loop succeeds when none of the new
    identities is in the ledger, and raises on the primary key otherwise. *)
Lemma processOutputs_run txid h outs : ∀ i acc c w,
  h ∈ r_height <$> tbl_blocks w →
  (Forall (λ k, k ∉ okey <$> tbl_outputs w) (newKeys txid i outs) ∧
   ∃ w', processOutputs txid h i outs acc c w = inr (acc + sumOutputs outs, w')
     ∧ tbl_blocks w' = tbl_blocks w
     ∧ okey <$> tbl_outputs w' = (okey <$> tbl_outputs w) ++ newKeys txid i outs)
  ∨ (Exists (λ k, k ∈ okey <$> tbl_outputs w) (newKeys txid i outs) ∧
     processOutputs txid h i outs acc c w = inl (UniqueViolation "outputs_pkey")).
Proof.
  induction outs as [|o rest IH]; intros i acc c w Hh; simpl.
  - left. split; [constructor|]. exists w. sql_unfold.
    rewrite app_nil_r, Z.add_0_r. done.
  - destruct (decide ((txid, i) ∈ okey <$> tbl_outputs w)) as [Hin|Hout].
    + right. split; [by left|].
      apply Sql_bind_inl. by apply insertOutput_taken.
    + erewrite Sql_bind_inr by (by apply insertOutput_fresh).
      sql_unfold.
      set (w1 := set_balances _ (set_outputs _ w)).
      assert (Hk1 : okey <$> tbl_outputs w1 = (okey <$> tbl_outputs w) ++ [(txid, i)]).
      { subst w1. simpl. by rewrite fmap_app. }
      destruct (IH (i + 1) (acc + o_value o) c w1 Hh)
        as [(Hfresh & w' & -> & Hb & Hk)|(Hdup & ->)].
      * left. split.
        { constructor; [done|]. eapply Forall_impl; [exact Hfresh|].
          intros k Hk' Hin. apply Hk'. rewrite Hk1. apply elem_of_app. by left. }
        exists w'. split; [f_equal; f_equal; lia|]. split; [done|].
        rewrite Hk, Hk1. by rewrite <- app_assoc.
      * right. split; [|done]. right.
        apply Exists_exists in Hdup as (k & Hk & Hin).
        apply Exists_exists. exists k. split; [done|].
        rewrite Hk1 in Hin. apply elem_of_app in Hin as [?|Heq]; [done|].
        apply list_elem_of_singleton in Heq as ->.
        apply newKeys_index in Hk. simpl in Hk. lia.
Qed.

(** ** One transaction, and the loop over the transactions *)

Lemma length_pos_nonempty {A} (l : list A) : 0 < Z.of_nat (length l) ↔ l ≠ [].
Proof. destruct l; simpl; split; (done || lia). Qed.

Lemma processTransaction_run tx h c w :
  h ∈ r_height <$> tbl_blocks w →
  match processTransaction tx h c w with
  | inr (None, w') =>
      conserves c tx
      ∧ Forall (λ k, k ∉ okey <$> tbl_outputs w) (txKeys tx)
      ∧ tbl_blocks w' = tbl_blocks w
      ∧ okey <$> tbl_outputs w' = (okey <$> tbl_outputs w) ++ txKeys tx
  | inr (Some e, w') =>
      missingInput c tx e
      ∨ (unbalanced c tx e ∧ Forall (λ k, k ∉ okey <$> tbl_outputs w) (txKeys tx))
  | inl e =>
      e = UniqueViolation "outputs_pkey"
      ∧ is_Some (sumInputs c (inputs tx))
      ∧ Exists (λ k, k ∈ okey <$> tbl_outputs w) (txKeys tx)
  end.
Proof.
  intros Hh. unfold processTransaction.
  destruct (processInputs_run (t_id tx) h (inputs tx) 0 c w)
    as (r & w1 & E1 & Hb1 & Hk1 & Hr).
  rewrite (Sql_bind_inr _ _ _ _ _ _ E1).
  destruct r as [e|s].
  - sql_unfold. left. destruct Hr as [_ Hr]. exact Hr.
  - rewrite Z.sub_0_r in Hr.
    destruct (processOutputs_run (t_id tx) h (outputs tx) 0 0 c w1)
      as [(Hfresh & w2 & E2 & Hb2 & Hk2)|(Hdup & E2)].
    { by rewrite Hb1. }
    + rewrite (Sql_bind_inr _ _ _ _ _ _ E2). rewrite Z.add_0_l.
      rewrite Hk1 in Hfresh, Hk2. rewrite Hb1 in Hb2.
      case_decide as Hbal; sql_unfold.
      * right. split; [|done]. exists s. rewrite length_pos_nonempty in Hbal.
        destruct Hbal. done.
      * split; [|done]. exists s. split; [done|].
        intros Hne. rewrite <- length_pos_nonempty in Hne.
        destruct (decide (s = sumOutputs (outputs tx))); [done|].
        destruct Hbal. done.
    + rewrite (Sql_bind_inl _ _ _ _ _ E2). rewrite Hk1 in Hdup.
      split; [done|]. split; [by eexists|done].
Qed.

Lemma NoDup_newKeys txid outs : ∀ i, NoDup (newKeys txid i outs).
Proof.
  induction outs as [|o rest IH]; intros i; simpl; constructor; [|done].
  intros Hin%newKeys_index. simpl in Hin. lia.
Qed.

(** A block is accepted only if every transaction conserves value and the
    identities of the new outputs are new; the errors it returns are a
    missing input or an imbalance of one of its transactions; it raises only
    on the primary key of [outputs]. *)
Lemma processTransactions_run txs h c : ∀ w,
  h ∈ r_height <$> tbl_blocks w →
  match processTransactions txs h c w with
  | inr (None, w') =>
      Forall (conserves c) txs
      ∧ Forall (λ k, k ∉ okey <$> tbl_outputs w) (blockKeys txs)
      ∧ NoDup (blockKeys txs)
      ∧ tbl_blocks w' = tbl_blocks w
      ∧ okey <$> tbl_outputs w' = (okey <$> tbl_outputs w) ++ blockKeys txs
  | inr (Some e, w') =>
      Exists (λ tx, missingInput c tx e ∨ unbalanced c tx e) txs
  | inl e => e = UniqueViolation "outputs_pkey"
  end.
Proof.
  induction txs as [|tx rest IH]; intros w Hh; simpl.
  - sql_unfold. rewrite app_nil_r. repeat split; constructor.
  - pose proof (processTransaction_run tx h c w Hh) as Htx.
    destruct (processTransaction tx h c w) as [e|[[e|] w1]] eqn:E1.
    + rewrite (Sql_bind_inl _ _ _ _ _ E1). by destruct Htx as (-> & _).
    + rewrite (Sql_bind_inr _ _ _ _ _ _ E1). sql_unfold. left.
      destruct Htx as [?|[? _]]; [by left|by right].
    + rewrite (Sql_bind_inr _ _ _ _ _ _ E1).
      destruct Htx as (Hc & Hfresh & Hb1 & Hk1).
      specialize (IH w1). rewrite Hb1 in IH. specialize (IH Hh).
      destruct (processTransactions rest h c w1) as [e|[[e|] w2]]; [done|by right|].
      destruct IH as (Hcs & Hfr & Hnd & Hb2 & Hk2).
      rewrite Hk1 in Hfr.
      split; [by constructor|]. unfold blockKeys in *. simpl. split.
      { apply Forall_app. split; [done|].
        eapply Forall_impl; [exact Hfr|]. intros k Hk Hin. apply Hk.
        apply elem_of_app. by left. }
      split.
      { apply NoDup_app. split; [apply NoDup_newKeys|]. split; [|done].
        intros k Hk Hin. rewrite Forall_forall in Hfr.
        apply (Hfr k Hin). apply elem_of_app. by right. }
      split; [done|]. rewrite Hk2, Hk1. by rewrite <- app_assoc.
Qed.

(** ** addBlock *)

Lemma insertBlock_run id h c w :
  match insertBlock id h c w with
  | inr (_, w') =>
      (id ∉ r_id <$> tbl_blocks w)
      ∧ w' = set_blocks (λ bs, bs ++ [mkBlockRecord id h]) w
  | inl e => ∃ k, e = UniqueViolation k
  end.
Proof.
  unfold insertBlock. repeat case_decide; eauto.
Qed.

(** Every way a call of [addBlock] can end. *)
Lemma addBlock_run db b :
  match addBlock db b with
  | (Returns None, db') =>
      (height b = getCurrentHeight db + 1
      ∧ b_id b = calculateBlockId (height b) (transactions b)
      ∧ (b_id b ∉ r_id <$> tbl_blocks db)
      ∧ Forall (conserves db) (transactions b)
      ∧ Forall (λ k, k ∉ okey <$> tbl_outputs db) (blockKeys (transactions b))
      ∧ NoDup (blockKeys (transactions b))
      ∧ tbl_blocks db' = tbl_blocks db ++ [mkBlockRecord (b_id b) (height b)]
      ∧ okey <$> tbl_outputs db' = (okey <$> tbl_outputs db) ++ blockKeys (transactions b))
  | (Returns (Some e), db') =>
      (db' = db
      ∧ ((height b ≠ getCurrentHeight db + 1
          ∧ e = InvalidHeight (getCurrentHeight db + 1) (height b))
         ∨ (height b = getCurrentHeight db + 1
            ∧ b_id b ≠ calculateBlockId (height b) (transactions b)
            ∧ e = InvalidBlockId (calculateBlockId (height b) (transactions b)) (b_id b))
         ∨ (height b = getCurrentHeight db + 1
            ∧ b_id b = calculateBlockId (height b) (transactions b)
            ∧ Exists (λ tx, missingInput db tx e ∨ unbalanced db tx e) (transactions b))))
  | (Throws e, db') =>
      (db' = db
      ∧ height b = getCurrentHeight db + 1
      ∧ b_id b = calculateBlockId (height b) (transactions b)
      ∧ ∃ k, e = UniqueViolation k)
  end.
Proof.
  unfold addBlock.
  case_decide as Hh; [split; [done|]; by left|].
  case_decide as Hid; [split; [done|]; right; by left|].
  unfold BEGIN, COMMIT, ROLLBACK.
  pose proof (insertBlock_run (b_id b) (height b) db db) as Hins.
  destruct (insertBlock (b_id b) (height b) db db) as [e|[[] w0]] eqn:E0.
  - rewrite (Sql_bind_inl _ _ _ _ _ E0). done.
  - rewrite (Sql_bind_inr _ _ _ _ _ _ E0). destruct Hins as [Hfresh ->].
    set (w0 := set_blocks _ db).
    pose proof (processTransactions_run (transactions b) (height b) db w0) as Hrun.
    destruct (processTransactions (transactions b) (height b) db w0)
      as [e|[[e|] w1]].
    + split; [done|]. split; [done|]. split; [done|]. exists "outputs_pkey".
      apply Hrun. subst w0. simpl. rewrite fmap_app. apply elem_of_app.
      right. by left.
    + split; [done|]. right. right. split; [done|]. split; [done|].
      apply Hrun. subst w0. simpl. rewrite fmap_app. apply elem_of_app.
      right. by left.
    + destruct Hrun as (Hc & Hfr & Hnd & Hb & Hk).
      { subst w0. simpl. rewrite fmap_app. apply elem_of_app. right. by left. }
      done.
Qed.

(** ** Heights *)

Lemma max_height_spec bs :
  match max_height bs with
  | Some m => m ∈ r_height <$> bs ∧ Forall (λ b, r_height b ≤ m) bs
  | None => bs = []
  end.
Proof.
  induction bs as [|b rest IH]; simpl; [done|].
  destruct (max_height rest) as [m|].
  - destruct IH as [Hin Hle]. split.
    + destruct (Z.max_spec (r_height b) m) as [[_ ->]|[_ ->]]; [by right|by left].
    + constructor; [lia|]. eapply Forall_impl; [exact Hle|]. simpl. lia.
  - subst rest. split; [by left|]. by repeat constructor.
Qed.

(** No block is above the current height. *)
Lemma blocks_le_current db :
  Forall (λ b, r_height b ≤ getCurrentHeight db) (tbl_blocks db).
Proof.
  unfold getCurrentHeight. pose proof (max_height_spec (tbl_blocks db)) as H.
  destruct (max_height (tbl_blocks db)) as [m|]; simpl.
  - destruct H as [_ H]. case_decide; [by subst m|done].
  - rewrite H. constructor.
Qed.

Lemma getCurrentHeight_seq db (n : nat) :
  r_height <$> tbl_blocks db = Z.of_nat <$> seq 1 n →
  getCurrentHeight db = Z.of_nat n.
Proof.
  intros Hs. unfold getCurrentHeight.
  pose proof (max_height_spec (tbl_blocks db)) as H.
  destruct (max_height (tbl_blocks db)) as [m|]; simpl.
  - destruct H as [Hin Hle]. rewrite Hs in Hin.
    apply list_elem_of_fmap in Hin as (k & -> & Hk%elem_of_seq).
    assert (Z.of_nat n ∈ r_height <$> tbl_blocks db) as Hn.
    { rewrite Hs. apply list_elem_of_fmap. exists n. split; [done|].
      apply elem_of_seq. lia. }
    apply list_elem_of_fmap in Hn as (b & Hb & Hbin).
    rewrite Forall_forall in Hle. specialize (Hle b Hbin).
    case_decide; lia.
  - rewrite H in Hs. destruct n; [done|]. simpl in Hs. done.
Qed.

Lemma heights_filter (t : Z) (bs : list BlockRecord) :
  r_height <$> filter (λ b, ¬ t < r_height b) bs
  = filter (λ h, ¬ t < h) (r_height <$> bs).
Proof.
  induction bs as [|b rest IH]; [done|].
  rewrite fmap_cons, !filter_cons. case_decide; [rewrite fmap_cons|]; by rewrite IH.
Qed.

Lemma filter_le_seq (t : Z) (n : nat) :
  filter (λ h, ¬ t < h) (Z.of_nat <$> seq 1 n)
  = Z.of_nat <$> seq 1 (n `min` Z.to_nat t).
Proof.
  induction n as [|n IH]; [done|].
  rewrite seq_S, fmap_app, filter_app, IH.
  rewrite fmap_cons, fmap_nil, filter_cons, filter_nil.
  case_decide as Hd.
  - replace (S n `min` Z.to_nat t)%nat with (S n) by lia.
    replace (n `min` Z.to_nat t)%nat with n by lia.
    by rewrite seq_S, fmap_app.
  - rewrite app_nil_r. f_equal. f_equal. lia.
Qed.

(** ** rollback *)

Lemma block_height_unspend_above t o :
  block_height (unspend_above t o) = block_height o.
Proof. unfold unspend_above. destruct (spent_at_height o); [case_decide|]; done. Qed.

Lemma filter_Forall_id {A} (P : A → Prop) `{∀ x, Decision (P x)} (l : list A) :
  Forall P l → filter P l = l.
Proof.
  induction 1 as [|x l Hx _ IH]; [done|].
  by rewrite filter_cons, decide_True, IH.
Qed.

(** The statements of [rollback] never raise, and leave these tables. *)
Lemma rollback_statements_run t c w :
  rollback_statements t c w
  = inr (tt, mkDb (filter (λ b, ¬ t < r_height b) (tbl_blocks w))
                  (rolledBackOutputs t (tbl_outputs w))
                  (sumByAddress (filter (λ o, block_height o ≤ t ∧ spent o = false)
                                        (rolledBackOutputs t (tbl_outputs w))))).
Proof.
  unfold rollback_statements. sql_unfold. simpl.
  fold (rolledBackOutputs t (tbl_outputs w)).
  rewrite (filter_Forall_id (λ o, block_height o ∉ _)).
  - unfold insertBalances. simpl.
    rewrite decide_True by apply map_disjoint_empty_r.
    unfold set_balances. simpl. by rewrite (right_id_L ∅ (∪)).
  - apply Forall_forall. intros o [Ho _]%list_elem_of_filter.
    intros (b & Hb & [Hgt _]%list_elem_of_filter)%list_elem_of_fmap. lia.
Qed.

Lemma rollback_run db t :
  rollback db t =
  if decide (getCurrentHeight db < t)
  then (Returns (Some TargetAboveCurrent), db)
  else (Returns None,
        mkDb (filter (λ b, ¬ t < r_height b) (tbl_blocks db))
             (rolledBackOutputs t (tbl_outputs db))
             (sumByAddress (filter (λ o, block_height o ≤ t ∧ spent o = false)
                                   (rolledBackOutputs t (tbl_outputs db))))).
Proof.
  unfold rollback. case_decide; [done|].
  unfold BEGIN, COMMIT. by rewrite rollback_statements_run.
Qed.

(** In a reachable state the block rows are at heights 1, 2, ..., current
    height, in this order. *)
Lemma reachable_heights db :
  Reachable db →
  r_height <$> tbl_blocks db = Z.of_nat <$> seq 1 (Z.to_nat (getCurrentHeight db))
  ∧ 0 ≤ getCurrentHeight db.
Proof.
  intros Hreach.
  assert (∃ n : nat, r_height <$> tbl_blocks db = Z.of_nat <$> seq 1 n) as [n Hn].
  { induction Hreach as [|db b _ [n IH]|db t _ [n IH]].
    - by exists 0%nat.
    - pose proof (addBlock_run db b) as Hrun.
      destruct (addBlock db b) as [[[e|]|e] db']; simpl.
      + destruct Hrun as [-> _]. by exists n.
      + destruct Hrun as (Hh & _ & _ & _ & _ & _ & -> & _).
        exists (S n). rewrite fmap_app, IH, seq_S, fmap_app. simpl.
        rewrite Hh, (getCurrentHeight_seq db n IH). do 3 f_equal. lia.
      + destruct Hrun as [-> _]. by exists n.
    - rewrite rollback_run. case_decide; simpl; [by exists n|].
      exists (n `min` Z.to_nat t)%nat.
      by rewrite heights_filter, IH, filter_le_seq. }
  rewrite (getCurrentHeight_seq db n Hn), Nat2Z.id. split; [done|lia].
Qed.

(** ** The first transaction that fails *)

Lemma processTransactions_app pre rest h c w :
  processTransactions (pre ++ rest) h c w =
  match processTransactions pre h c w with
  | inr (None, w') => processTransactions rest h c w'
  | r => r
  end.
Proof.
  revert w. induction pre as [|tx pre IH]; intros w; simpl; [done|].
  sql_unfold. destruct (processTransaction tx h c w) as [e|[[e|] w1]]; [done..|].
  apply IH.
Qed.

Lemma missingInput_sumInputs c tx e :
  missingInput c tx e → sumInputs c (inputs tx) = None.
Proof.
  intros (i & Hi & _ & Hn). induction (inputs tx) as [|j rest IH]; simpl.
  - by apply elem_of_nil in Hi.
  - apply elem_of_cons in Hi as [<-|Hi].
    + by rewrite Hn.
    + rewrite (IH Hi). by destruct (getUnspentOutput c (txId j) (index j)).
Qed.

Lemma conserves_no_error c tx e :
  conserves c tx → ¬ (missingInput c tx e ∨ unbalanced c tx e).
Proof.
  intros (s & Hs & Hbal) [Hm|(s' & Hs' & Hne & Hdiff & _)].
  - apply missingInput_sumInputs in Hm. congruence.
  - assert (s' = s) as -> by congruence. by apply Hdiff, Hbal.
Qed.

(** Transactions that conserve value are passed, unless the store raises. *)
Lemma processTransactions_pass pre h c w :
  h ∈ r_height <$> tbl_blocks w →
  Forall (conserves c) pre →
  match processTransactions pre h c w with
  | inr (None, w') =>
      tbl_blocks w' = tbl_blocks w
      ∧ okey <$> tbl_outputs w' = (okey <$> tbl_outputs w) ++ blockKeys pre
  | inr (Some _, _) => False
  | inl e => e = UniqueViolation "outputs_pkey"
  end.
Proof.
  intros Hh Hc. pose proof (processTransactions_run pre h c w Hh) as Hrun.
  destruct (processTransactions pre h c w) as [e|[[e|] w']]; [done| |].
  - apply Exists_exists in Hrun as (tx & Htx & Herr).
    rewrite Forall_forall in Hc. by eapply conserves_no_error; eauto.
  - by destruct Hrun as (_ & _ & _ & ? & ?).
Qed.

(** ** After the two checks *)

Lemma addBlock_checked db b :
  height b = getCurrentHeight db + 1 →
  b_id b = calculateBlockId (height b) (transactions b) →
  addBlock db b =
  match (_ ← insertBlock (b_id b) (height b);
         processTransactions (transactions b) (height b)) db db with
  | inr (Some validationError, _) => (Returns (Some validationError), db)
  | inr (None, client) => (Returns None, client)
  | inl error => (Throws error, db)
  end.
Proof.
  intros Hh Hid. unfold addBlock, BEGIN, COMMIT, ROLLBACK.
  by rewrite !decide_False by (by intros []).
Qed.

Lemma height_after_insertBlock id h w :
  h ∈ r_height <$> tbl_blocks (set_blocks (λ bs, bs ++ [mkBlockRecord id h]) w).
Proof. simpl. rewrite fmap_app. apply elem_of_app. right. by left. Qed.

(** ** The block identifier *)

Lemma get_elem_of n s c :
  String.get n s = Some c → c ∈ list_ascii_of_string s.
Proof.
  revert n. induction s as [|a s IH]; intros n; simpl; [done|].
  destruct n as [|n]; [intros [= ->]; by left|].
  intros H. right. by eapply IH.
Qed.

Lemma hex_digit_lower x : lower_hex (SHA256.hex_digit x).
Proof.
  unfold SHA256.hex_digit, lower_hex.
  destruct (String.get (Z.to_nat x) "0123456789abcdef") as [c|] eqn:E.
  - by eapply get_elem_of.
  - by left.
Qed.

Lemma round_length st kw : length st = 8%nat → length (SHA256.round st kw) = 8%nat.
Proof.
  intros H. do 9 (destruct st as [|? st]; try discriminate H). done.
Qed.

Lemma compress_length h bw : length h = 8%nat → length (SHA256.compress h bw) = 8%nat.
Proof.
  intros H. unfold SHA256.compress.
  rewrite length_map, length_combine, H.
  assert (∀ kws st, length st = 8%nat →
            length (fold_left SHA256.round kws st) = 8%nat) as Hfold.
  { induction kws as [|kw kws IH]; intros st Hst; simpl; [done|].
    by apply IH, round_length. }
  by rewrite Hfold.
Qed.

Lemma digest_length msg : length (SHA256.digest msg) = 8%nat.
Proof.
  unfold SHA256.digest.
  generalize (SHA256.blocks
    (length (SHA256.words_of_bytes (length (SHA256.pad msg)) (SHA256.pad msg)))
    (SHA256.words_of_bytes (length (SHA256.pad msg)) (SHA256.pad msg))).
  assert (∀ bs h, length h = 8%nat →
            length (fold_left SHA256.compress bs h) = 8%nat) as Hfold.
  { induction bs as [|b bs IH]; intros h Hh; simpl; [done|].
    by apply IH, compress_length. }
  intros bs. by apply Hfold.
Qed.

(** The digest is printed as 64 lowercase hexadecimal digits. *)
Lemma hex_format s :
  String.length (SHA256.hex s) = 64%nat
  ∧ Forall lower_hex (list_ascii_of_string (SHA256.hex s)).
Proof.
  unfold SHA256.hex. pose proof (digest_length (SHA256.bytes_of_string s)) as H.
  destruct (SHA256.digest (SHA256.bytes_of_string s)) as [|w0 ws]; [done|].
  do 8 (destruct ws as [|? ws]; try discriminate H).
  split; [done|]. cbn.
  repeat (constructor; [apply hex_digit_lower|]). constructor.
Qed.

(** ** Balances rebuilt from the ledger *)

Lemma js_or_default (x : option Z) : js_or x 0 = default 0 x.
Proof. destruct x as [v|]; simpl; [|done]. by case_decide. Qed.

Lemma sumByAddress_lookup rows a :
  default 0 (sumByAddress rows !! a)
  = foldr (λ o s, value o + s) 0 (filter (λ o, address o = a) rows).
Proof.
  induction rows as [|o rows IH]; simpl; [done|].
  rewrite filter_cons. case_decide as Ha.
  - subst a. rewrite lookup_insert_eq. simpl. by rewrite IH.
  - by rewrite lookup_insert_ne.
Qed.

Lemma unspend_above_id t o :
  (∀ s, spent_at_height o = Some s → s ≤ t) → unspend_above t o = o.
Proof.
  intros H. unfold unspend_above. destruct (spent_at_height o) as [s|]; [|done].
  rewrite decide_False; [done|]. specialize (H s eq_refl). lia.
Qed.

Lemma rolledBackOutputs_within t os :
  Forall (λ o, block_height o ≤ t ∧ ∀ s, spent_at_height o = Some s → s ≤ t) os →
  rolledBackOutputs t os = os.
Proof.
  intros H. unfold rolledBackOutputs.
  rewrite (list_fmap_ext (unspend_above t) id os).
  - rewrite list_fmap_id. apply filter_Forall_id.
    eapply Forall_impl; [exact H|]. simpl. intros o [? _]. lia.
  - intros i o Hi. rewrite Forall_forall in H.
    apply unspend_above_id, H. by eapply list_elem_of_lookup_2.
Qed.

(** ** The spend check reads the committed tables *)

(** What the loop over the inputs answers does not depend on the tables of
    the open transaction. *)
Lemma processInputs_reads_committed txid h ins : ∀ acc c w1 w2,
  verdict (processInputs txid h ins acc c w1)
  = verdict (processInputs txid h ins acc c w2).
Proof.
  induction ins as [|i rest IH]; intros acc c w1 w2; simpl; [done|].
  sql_unfold. destruct (getUnspentOutput c (txId i) (index i)); [|done].
  apply IH.
Qed.

Lemma getUnspentOutput_key db txid idx o :
  getUnspentOutput db txid idx = Some o →
  o ∈ tbl_outputs db ∧ okey o = (txid, idx) ∧ spent o = false.
Proof.
  unfold getUnspentOutput. intros H%head_Some_elem_of.
  apply list_elem_of_filter in H as [[[<- <-] Hs] Ho]. done.
Qed.

Lemma sumInputs_Some c ins s i :
  sumInputs c ins = Some s → i ∈ ins →
  is_Some (getUnspentOutput c (txId i) (index i)).
Proof.
  revert s. induction ins as [|j rest IH]; intros s; simpl.
  - by intros _ ?%elem_of_nil.
  - destruct (getUnspentOutput c (txId j) (index j)) as [o|] eqn:Eo; [|done].
    destruct (sumInputs c rest) as [s'|]; [|done].
    intros _ [->|Hi]%elem_of_cons; [by rewrite Eo|by eapply IH].
Qed.

(** In an accepted block every input was a committed unspent output before
    the call, so none of them is an output the block itself creates. *)
Lemma accepted_inputs_committed db b db' tx i :
  addBlock db b = (Returns None, db') →
  tx ∈ transactions b → i ∈ inputs tx →
  is_Some (getUnspentOutput db (txId i) (index i))
  ∧ (txId i, index i) ∉ blockKeys (transactions b).
Proof.
  intros E Htx Hi. pose proof (addBlock_run db b) as Hrun. rewrite E in Hrun.
  destruct Hrun as (_ & _ & _ & Hc & Hfresh & _).
  rewrite Forall_forall in Hc. destruct (Hc tx Htx) as (s & Hs & _).
  destruct (sumInputs_Some _ _ _ i Hs Hi) as [o Ho]. split; [by exists o|].
  intros Hin. rewrite Forall_forall in Hfresh. apply (Hfresh _ Hin).
  apply getUnspentOutput_key in Ho as (Ho & <- & _).
  apply list_elem_of_fmap. by exists o.
Qed.

(** ** The tables after an accepted block *)

Lemma processInputs_tables txid h ins : ∀ acc c w s,
  sumInputs c ins = Some s →
  processInputs txid h ins acc c w
  = inr (inr (acc + s),
         mkDb (tbl_blocks w)
              (apply_marks h (inputMarks txid ins) <$> tbl_outputs w)
              (apply_deltas (debits c ins) (tbl_balances w))).
Proof.
  induction ins as [|i rest IH]; intros acc c w s; simpl.
  - intros [= <-]. sql_unfold. rewrite Z.add_0_r.
    unfold apply_marks. simpl. rewrite list_fmap_id. by destruct w.
  - sql_unfold. unfold debits. simpl.
    destruct (getUnspentOutput c (txId i) (index i)) as [o|] eqn:Eo; [|done].
    destruct (sumInputs c rest) as [s'|] eqn:Es; [|done].
    intros [= <-]. simpl. rewrite (IH _ _ _ s' Es). simpl.
    rewrite <- list_fmap_compose. do 3 f_equal. lia.
Qed.

Lemma okeys_newRows txid h outs : ∀ i,
  okey <$> newRows txid h i outs = newKeys txid i outs.
Proof. induction outs as [|o rest IH]; intros i; simpl; [done|]. by rewrite IH. Qed.

Lemma processOutputs_tables txid h outs : ∀ i acc c w w' s,
  processOutputs txid h i outs acc c w = inr (s, w') →
  w' = mkDb (tbl_blocks w)
            (tbl_outputs w ++ newRows txid h i outs)
            (apply_deltas (credits outs) (tbl_balances w)).
Proof.
  induction outs as [|o rest IH]; intros i acc c w w' s; simpl.
  - sql_unfold. intros [= _ <-]. rewrite app_nil_r. by destruct w.
  - intros (? & w1 & E1 & E2)%Sql_bind_inv.
    unfold insertOutput in E1. repeat case_decide; try done.
    injection E1 as _ <-.
    apply Sql_bind_inv in E2 as (? & w2 & E2 & E3).
    sql_unfold. injection E2 as _ <-.
    apply IH in E3 as ->. simpl. by rewrite <- app_assoc.
Qed.

Lemma apply_marks_app h ms1 ms2 o :
  apply_marks h (ms1 ++ ms2) o = apply_marks h ms2 (apply_marks h ms1 o).
Proof. unfold apply_marks. by rewrite foldl_app. Qed.

Lemma apply_deltas_app ds1 ds2 m :
  apply_deltas (ds1 ++ ds2) m = apply_deltas ds2 (apply_deltas ds1 m).
Proof. unfold apply_deltas. by rewrite foldl_app. Qed.

Lemma okey_apply_marks h ms o : okey (apply_marks h ms o) = okey o.
Proof.
  revert o. induction ms as [|m ms IH]; intros o; [done|].
  unfold apply_marks in *. simpl. rewrite IH. apply okey_mark_spent.
Qed.

(** A spend leaves a row of another identity alone. *)
Lemma apply_marks_other h ms o :
  okey o ∉ ms.*1 → apply_marks h ms o = o.
Proof.
  revert o. induction ms as [|m ms IH]; intros o Hk; [done|].
  unfold apply_marks in *. simpl.
  rewrite fmap_cons, not_elem_of_cons in Hk. destruct Hk as [Hne Hk].
  unfold apply_mark at 2. unfold mark_spent. rewrite decide_False.
  - by apply IH.
  - intros [H1 H2]. apply Hne. unfold okey. rewrite H1, H2. by destruct m as [[]].
Qed.

Lemma inputMarks_keys txid ins :
  (inputMarks txid ins).*1 = (λ i, (txId i, index i)) <$> ins.
Proof. unfold inputMarks. rewrite <- list_fmap_compose. done. Qed.

Lemma sumInputs_keys c ins s k :
  sumInputs c ins = Some s → k ∈ (λ i, (txId i, index i)) <$> ins →
  k ∈ okey <$> tbl_outputs c.
Proof.
  intros Hs (i & -> & Hi)%list_elem_of_fmap.
  destruct (sumInputs_Some _ _ _ i Hs Hi) as [o Ho].
  apply getUnspentOutput_key in Ho as (Ho & <- & _).
  apply list_elem_of_fmap. by exists o.
Qed.

Lemma blockMarks_keys c txs k :
  Forall (conserves c) txs → k ∈ (blockMarks txs).*1 →
  k ∈ okey <$> tbl_outputs c.
Proof.
  intros Hc (m & -> & Hm)%list_elem_of_fmap.
  apply list_elem_of_bind in Hm as (tx & Hm & Htx).
  rewrite Forall_forall in Hc. destruct (Hc tx Htx) as (s & Hs & _).
  eapply sumInputs_keys; [exact Hs|].
  rewrite <- (inputMarks_keys (t_id tx)). apply list_elem_of_fmap. eauto.
Qed.

(** The tables a run of the loop over the transactions leaves when it
    passes them all: the committed rows with the spends applied, then the
    new rows; the balances with every debit and credit applied in order. *)
Lemma processTransactions_tables txs h c : ∀ w w',
  (∀ k, k ∈ okey <$> tbl_outputs c → k ∈ okey <$> tbl_outputs w) →
  h ∈ r_height <$> tbl_blocks w →
  processTransactions txs h c w = inr (None, w') →
  w' = mkDb (tbl_blocks w)
            ((apply_marks h (blockMarks txs) <$> tbl_outputs w) ++ blockRows h txs)
            (apply_deltas (blockDeltas c txs) (tbl_balances w)).
Proof.
  induction txs as [|tx rest IH]; intros w w' Hsub Hh; simpl.
  - sql_unfold. intros [= <-]. unfold blockMarks, blockRows, blockDeltas, apply_marks.
    simpl. rewrite list_fmap_id, app_nil_r. by destruct w.
  - intros (r & w1 & E1 & E2)%Sql_bind_inv.
    pose proof (processTransaction_run tx h c w Hh) as Htx. rewrite E1 in Htx.
    destruct r as [e|]; [by sql_unfold|].
    destruct Htx as ((s & Hs & _) & Hfresh & Hb1 & Hk1).
    pose proof (processTransactions_run rest h c w1) as Hrest.
    rewrite Hb1, E2 in Hrest. destruct (Hrest Hh) as (Hcons & _).
    unfold processTransaction in E1.
    rewrite (Sql_bind_inr _ _ _ _ _ _ (processInputs_tables _ _ _ 0 c w s Hs)) in E1.
    apply Sql_bind_inv in E1 as (so & w2 & E1 & E3).
    apply processOutputs_tables in E1. simpl in E1.
    assert (w1 = w2) as -> by (case_decide; sql_unfold; congruence).
    apply IH in E2; [|intros k Hk; rewrite Hk1; apply elem_of_app; left; by apply Hsub
                     |by rewrite Hb1].
    rewrite E2, E1. simpl. unfold blockMarks, blockRows, blockDeltas. simpl.
    rewrite !apply_deltas_app. f_equal.
    rewrite fmap_app, <- app_assoc. f_equal.
    + rewrite <- list_fmap_compose. apply list_fmap_ext.
      intros j o _. simpl. by rewrite apply_marks_app.
    + f_equal. rewrite <- (list_fmap_id (newRows _ _ _ _)) at 2.
      apply list_fmap_ext. intros j o Ho. simpl. apply apply_marks_other.
      intros Hin. apply (blockMarks_keys c) in Hin; [|done].
      rewrite Forall_forall in Hfresh. apply (Hfresh (okey o)); [|by apply Hsub].
      unfold txKeys. rewrite <- (okeys_newRows _ h).
      apply list_elem_of_fmap. exists o. split; [done|].
      by eapply list_elem_of_lookup_2.
Qed.

(** The same for [addBlock]. *)
Lemma addBlock_tables db b db' :
  addBlock db b = (Returns None, db') →
  db' = mkDb (tbl_blocks db ++ [mkBlockRecord (b_id b) (height b)])
             ((apply_marks (height b) (blockMarks (transactions b)) <$> tbl_outputs db)
              ++ blockRows (height b) (transactions b))
             (apply_deltas (blockDeltas db (transactions b)) (tbl_balances db)).
Proof.
  intros E. pose proof (addBlock_run db b) as Hrun. rewrite E in Hrun.
  destruct Hrun as (Hh & Hid & _). rewrite (addBlock_checked _ _ Hh Hid) in E.
  pose proof (insertBlock_run (b_id b) (height b) db db) as Hins.
  destruct (insertBlock (b_id b) (height b) db db) as [e|[[] w0]] eqn:E0.
  { by rewrite (Sql_bind_inl _ _ _ _ _ E0) in E. }
  rewrite (Sql_bind_inr _ _ _ _ _ _ E0) in E. destruct Hins as [_ ->].
  destruct (processTransactions _ _ _ _) as [e|[[e|] w1]] eqn:E1; [done..|].
  injection E as <-.
  apply processTransactions_tables in E1; [done|done|].
  apply height_after_insertBlock.
Qed.

(** ** Sums over the ledger and over balance changes *)

Lemma deltaSum_app a ds1 ds2 :
  deltaSum a (ds1 ++ ds2) = deltaSum a ds1 + deltaSum a ds2.
Proof. induction ds1 as [|d ds1 IH]; simpl; [done|]. rewrite IH. lia. Qed.

Lemma ledgerSum_app l1 l2 a :
  ledgerSum (l1 ++ l2) a = ledgerSum l1 a + ledgerSum l2 a.
Proof.
  unfold ledgerSum. rewrite filter_app.
  induction (filter _ l1) as [|o l IH]; simpl; [done|]. rewrite IH. lia.
Qed.

Lemma ledgerSum_cons o l a :
  ledgerSum (o :: l) a
  = (if decide (address o = a ∧ spent o = false) then value o else 0) + ledgerSum l a.
Proof. unfold ledgerSum. rewrite filter_cons. by case_decide. Qed.

Lemma upsert_lookup addr delta m a :
  default 0 (upsert addr delta m !! a)
  = default 0 (m !! a) + (if decide (addr = a) then delta else 0).
Proof.
  unfold upsert. case_decide as Ha.
  - subst a. rewrite lookup_insert_eq. by destruct (m !! addr); simpl.
  - rewrite lookup_insert_ne by done. lia.
Qed.

Lemma apply_deltas_lookup ds : ∀ m a,
  default 0 (apply_deltas ds m !! a) = default 0 (m !! a) + deltaSum a ds.
Proof.
  induction ds as [|d ds IH]; intros m a; simpl; [lia|].
  unfold apply_deltas in *. simpl. rewrite IH, upsert_lookup. lia.
Qed.

Lemma ledgerSum_newRows txid h outs a : ∀ i,
  ledgerSum (newRows txid h i outs) a = deltaSum a (credits outs).
Proof.
  induction outs as [|o rest IH]; intros i; simpl; [done|].
  rewrite ledgerSum_cons, IH. simpl.
  destruct (decide (o_address o = a)) as [Ha|Ha].
  - by rewrite decide_True.
  - by rewrite decide_False by (by intros [? _]).
Qed.

Lemma apply_mark_hit h m x :
  is_output m.1.1 m.1.2 x →
  apply_mark h x m
  = mkOutputRecord (tx_id x) (output_index x) (address x) (value x)
                   (block_height x) true (Some m.2) (Some h).
Proof. intros H. unfold apply_mark, mark_spent. by rewrite decide_True. Qed.

Lemma apply_mark_miss h m x :
  ¬ is_output m.1.1 m.1.2 x → apply_mark h x m = x.
Proof. intros H. unfold apply_mark, mark_spent. by rewrite decide_False. Qed.

(** Spending the identity [m.1] leaves the unspent rows of other identities. *)
Lemma unspentAt_mark_other h m l k :
  k ≠ m.1 → unspentAt ((λ o, apply_mark h o m) <$> l) k = unspentAt l k.
Proof.
  intros Hne. unfold unspentAt. f_equal.
  induction l as [|o l IH]; [done|].
  rewrite fmap_cons, !filter_cons, IH.
  destruct (decide (is_output m.1.1 m.1.2 o)) as [[H1 H2]|Hno].
  - rewrite apply_mark_hit by done.
    rewrite !decide_False; [done| |].
    + intros [[? ?] _]. apply Hne. destruct k, m as [[]]. simpl in *. congruence.
    + intros [[? ?] _]. apply Hne. destruct k, m as [[]]. simpl in *. congruence.
  - by rewrite apply_mark_miss.
Qed.

Lemma markDebits_mark_other h m l ms :
  m.1 ∉ ms.*1 →
  markDebits ((λ o, apply_mark h o m) <$> l) ms = markDebits l ms.
Proof.
  intros Hne. unfold markDebits. apply list_omap_ext, Forall2_same_length_lookup.
  split; [done|]. intros i x y Hx Hy. assert (x = y) as -> by congruence.
  rewrite unspentAt_mark_other; [done|].
  intros Heq. apply Hne. apply list_elem_of_fmap. exists y.
  split; [done|]. by eapply list_elem_of_lookup_2.
Qed.

(** Spending an identity that has an unspent row takes that row's value
    out of the sum of its address, and nothing else. *)
Lemma ledgerSum_mark h m a : ∀ l o,
  NoDup (okey <$> l) →
  unspentAt l m.1 = Some o →
  ledgerSum ((λ o, apply_mark h o m) <$> l) a
  = ledgerSum l a + (if decide (address o = a) then - value o else 0).
Proof.
  induction l as [|x l IH]; intros o Hnd Hu; [done|].
  rewrite fmap_cons in *. apply NoDup_cons in Hnd as [Hx Hnd].
  rewrite !ledgerSum_cons. unfold unspentAt in Hu. rewrite filter_cons in Hu.
  destruct (decide (is_output m.1.1 m.1.2 x)) as [Hk|Hk].
  - (* the row [x] has the identity: no other row has it *)
    assert (Hrest : (λ o, apply_mark h o m) <$> l = l).
    { rewrite <- (list_fmap_id l) at 2. apply list_fmap_ext. intros i y Hy. simpl.
      apply apply_mark_miss. intros [H1 H2]. apply Hx.
      apply list_elem_of_fmap. exists y.
      split; [|by eapply list_elem_of_lookup_2].
      destruct Hk as [H3 H4]. unfold okey. congruence. }
    rewrite Hrest, (apply_mark_hit _ _ _ Hk). simpl.
    rewrite (decide_False (P := _ ∧ true = false)) by (by intros [_ ?]).
    destruct (decide (is_output m.1.1 m.1.2 x ∧ spent x = false)) as [[_ Hs]|Hs].
    + injection Hu as <-. rewrite Hs.
      destruct (decide (address x = a)) as [Ha|Ha].
      * rewrite decide_True by done. lia.
      * rewrite decide_False by (by intros [? _]). lia.
    + (* [x] is spent, so no unspent row has the identity *)
      exfalso. apply head_Some_elem_of, list_elem_of_filter in Hu as [[[H1 H2] _] Ho].
      apply Hx. apply list_elem_of_fmap. exists o. split; [|done].
      destruct Hk as [H3 H4]. unfold okey. congruence.
  - rewrite decide_False in Hu by (by intros [? _]).
    rewrite (apply_mark_miss _ _ _ Hk), (IH o Hnd Hu). lia.
Qed.

Lemma markDebits_cons l m ms :
  markDebits l (m :: ms)
  = match unspentAt l m.1 with
    | Some o => (address o, - value o) :: markDebits l ms
    | None => markDebits l ms
    end.
Proof. unfold markDebits. simpl. by destruct (unspentAt l m.1). Qed.

Lemma ledgerSum_marks h a : ∀ ms l,
  NoDup (okey <$> l) → NoDup ms.*1 →
  Forall (λ m, is_Some (unspentAt l m.1)) ms →
  ledgerSum (apply_marks h ms <$> l) a = ledgerSum l a + deltaSum a (markDebits l ms).
Proof.
  induction ms as [|m ms IH]; intros l Hl Hms Hfound.
  - unfold apply_marks. simpl. rewrite list_fmap_id. lia.
  - rewrite fmap_cons in Hms. apply NoDup_cons in Hms as [Hm Hms].
    apply Forall_cons in Hfound as [[o Ho] Hfound].
    replace (apply_marks h (m :: ms) <$> l)
      with (apply_marks h ms <$> ((λ o, apply_mark h o m) <$> l))
      by (by rewrite <- list_fmap_compose).
    rewrite IH.
    + rewrite (ledgerSum_mark h m a l o Hl Ho), markDebits_mark_other by done.
      rewrite (markDebits_cons l m ms), Ho. simpl. lia.
    + rewrite <- list_fmap_compose.
      rewrite (list_fmap_ext (okey ∘ (λ o, apply_mark h o m)) okey l); [done|].
      intros i x _. apply okey_mark_spent.
    + done.
    + eapply Forall_impl; [|intros m' Hm'; exact Hm'].
      apply Forall_forall. intros m' Hin.
      rewrite unspentAt_mark_other.
      * rewrite Forall_forall in Hfound. by apply Hfound.
      * intros Heq. apply Hm. apply list_elem_of_fmap. by exists m'.
Qed.

(** ** What every reachable state keeps *)

Lemma apply_marks_cases h ms o :
((okey o ∉ ms.*1) ∧ apply_marks h ms o = o)
  ∨ (okey o ∈ ms.*1
     ∧ ∃ by_tx, apply_marks h ms o
                = mkOutputRecord (tx_id o) (output_index o) (address o) (value o)
                                 (block_height o) true (Some by_tx) (Some h)).
Proof.
  induction ms as [|m ms IH] using rev_ind.
  - left. split; [apply not_elem_of_nil|done].
  - rewrite apply_marks_app, fmap_app. unfold apply_marks at 1 3. simpl.
    destruct (decide (is_output m.1.1 m.1.2 (apply_marks h ms o))) as [Hk|Hk].
    + right. split.
      { apply elem_of_app. right. apply list_elem_of_singleton.
        destruct Hk as [H1 H2]. rewrite <- (okey_apply_marks h ms o).
        unfold okey. rewrite H1, H2. by destruct m as [[]]. }
      rewrite (apply_mark_hit _ _ _ Hk). exists m.2.
      destruct IH as [[_ ->]|[_ [t ->]]]; done.
    + rewrite (apply_mark_miss _ _ _ Hk).
      destruct IH as [[Hout Hsame]|[Hin Hm]].
      * left. split; [|done]. intros [?|Heq%list_elem_of_singleton]%elem_of_app; [done|].
        apply Hk. pose proof (okey_apply_marks h ms o) as Hok.
        rewrite Heq in Hok. rewrite <- Hok. by split.
      * right. split; [|done]. apply elem_of_app. by left.
Qed.

Lemma getCurrentHeight_accepted db b db' :
  addBlock db b = (Returns None, db') → getCurrentHeight db' = height b.
Proof.
  intros E. pose proof (addBlock_run db b) as Hrun. rewrite E in Hrun.
  destruct Hrun as (Hh & _ & _ & _ & _ & _ & Hb & _).
  unfold getCurrentHeight at 1. pose proof (max_height_spec (tbl_blocks db')) as Hm.
  destruct (max_height (tbl_blocks db')) as [m|]; simpl.
  - destruct Hm as [Hin Hle]. rewrite Hb in Hin, Hle.
    rewrite fmap_app, elem_of_app in Hin.
    rewrite Forall_app, Forall_singleton in Hle. destruct Hle as [_ Hle]. simpl in Hle.
    destruct Hin as [Hin|Hin%list_elem_of_singleton].
    + apply list_elem_of_fmap in Hin as (blk & -> & Hin).
      pose proof (blocks_le_current db) as Hcur. rewrite Forall_forall in Hcur.
      specialize (Hcur blk Hin). lia.
    + simpl in Hin. subst m. by case_decide.
  - rewrite Hb in Hm. by destruct (tbl_blocks db).
Qed.

Lemma Forall_newRows (P : OutputRecord → Prop) txid h outs :
  (∀ i addr v, P (mkOutputRecord txid i addr v h false None None)) →
  ∀ i, Forall P (newRows txid h i outs).
Proof. intros HP. induction outs; intros i; simpl; constructor; auto. Qed.

Lemma Forall_blockRows (P : OutputRecord → Prop) h txs :
  (∀ txid i addr v, P (mkOutputRecord txid i addr v h false None None)) →
  Forall P (blockRows h txs).
Proof.
  intros HP. unfold blockRows. apply Forall_bind, Forall_forall.
  intros tx _. by apply Forall_newRows.
Qed.

(** An accepted block keeps the ledger consistent, whatever its inputs. *)
Lemma addBlock_consistent db b db' :
  Consistent db → addBlock db b = (Returns None, db') → Consistent db'.
Proof.
  intros (Hnd & Hin & Hcl) E.
  pose proof (addBlock_run db b) as Hrun. rewrite E in Hrun.
  destruct Hrun as (Hh & _ & _ & _ & Hfresh & Hndk & _ & Hk).
  unfold Consistent, ledger_within, ledger_clean.
  rewrite (getCurrentHeight_accepted _ _ _ E).
  rewrite (addBlock_tables _ _ _ E) in Hk |- *. simpl in *.
  split; [|split].
  - rewrite Hk. apply NoDup_app. split; [done|]. split; [|done].
    intros k Hk1 Hk2. rewrite Forall_forall in Hfresh. by apply (Hfresh k).
  - apply Forall_app. split.
    + apply Forall_fmap. eapply Forall_impl; [exact Hin|]. simpl.
      intros o [Hbh Hs].
      destruct (apply_marks_cases (height b) (blockMarks (transactions b)) o)
        as [[_ ->]|[_ [t ->]]]; simpl.
      * split; [lia|]. intros s Hs'. specialize (Hs s Hs'). lia.
      * split; [lia|]. intros s [= <-]. lia.
    + apply Forall_blockRows. simpl. intros _ _ _ _. split; [lia|done].
  - apply Forall_app. split.
    + apply Forall_fmap. eapply Forall_impl; [exact Hcl|]. simpl. intros o Ho.
      destruct (apply_marks_cases (height b) (blockMarks (transactions b)) o)
        as [[_ ->]|[_ [t ->]]]; simpl; done.
    + apply Forall_blockRows. simpl. done.
Qed.

Lemma okeys_rolledBack t l :
  okey <$> rolledBackOutputs t l `sublist_of` okey <$> l.
Proof.
  unfold rolledBackOutputs.
  trans (okey <$> (unspend_above t <$> l)).
  - apply fmap_sublist, sublist_filter.
  - rewrite <- list_fmap_compose.
    rewrite (list_fmap_ext (okey ∘ unspend_above t) okey l); [done|].
    intros i o _. simpl. unfold unspend_above.
    destruct (spent_at_height o); [case_decide|]; done.
Qed.

(** The ledger of every reachable state is consistent. *)
Lemma reachable_consistent db : Reachable db → Consistent db.
Proof.
  induction 1 as [|db b Hreach IH|db t Hreach IH].
  - repeat split; constructor.
  - pose proof (addBlock_run db b) as Hrun.
    destruct (addBlock db b) as [[[e|]|e] db'] eqn:E; simpl.
    + by destruct Hrun as [-> _].
    + by eapply addBlock_consistent.
    + by destruct Hrun as [-> _].
  - destruct (reachable_heights db Hreach) as (Hseq & Hpos).
    rewrite rollback_run. case_decide as Ht; simpl; [done|].
    destruct IH as (Hnd & Hin & Hcl).
    set (db' := mkDb _ _ _).
    assert (Hcur : t ≤ getCurrentHeight db').
    { rewrite (getCurrentHeight_seq db'
                 (Z.to_nat (getCurrentHeight db) `min` Z.to_nat t)); [lia|].
      subst db'. simpl. by rewrite heights_filter, Hseq, filter_le_seq. }
    unfold Consistent, ledger_within, ledger_clean. simpl. split; [|split].
    + eapply sublist_NoDup; [exact Hnd|apply okeys_rolledBack].
    + apply Forall_forall.
      intros o' [Hbh (o & -> & Ho)%list_elem_of_fmap]%list_elem_of_filter.
      rewrite block_height_unspend_above in Hbh |- *. split; [lia|].
      unfold unspend_above. destruct (spent_at_height o) as [s0|] eqn:Es.
      * case_decide; simpl; [done|]. rewrite Es. intros s [= <-]. lia.
      * rewrite Es. done.
    + apply Forall_forall.
      intros o' [Hbh (o & -> & Ho)%list_elem_of_fmap]%list_elem_of_filter.
      unfold ledger_clean in Hcl. rewrite Forall_forall in Hcl. specialize (Hcl o Ho).
      unfold unspend_above. destruct (spent_at_height o) as [s0|] eqn:Es.
      * case_decide; simpl; [done|]. intros Hs. by destruct (Hcl Hs) as [_ ?].
      * intros Hs. destruct (Hcl Hs) as [? _]. done.
Qed.

(** ** The balance projection, for blocks that list no output twice *)

Lemma filter_ext_elem {A} (P Q : A → Prop)
    `{∀ x, Decision (P x)} `{∀ x, Decision (Q x)} (l : list A) :
  (∀ x, x ∈ l → P x ↔ Q x) → filter P l = filter Q l.
Proof.
  induction l as [|x l IH]; intros Hext; [done|].
  rewrite !filter_cons, IH by (intros y Hy; apply Hext; by right).
  destruct (decide (P x)) as [HP|HP].
  - rewrite decide_True; [done|]. apply Hext; [by left|done].
  - rewrite decide_False; [done|]. intros HQ. apply HP, Hext; [by left|done].
Qed.

Lemma unspentSum_within db a :
  ledger_within db (getCurrentHeight db) →
  unspentSum db a = ledgerSum (tbl_outputs db) a.
Proof.
  intros Hw. unfold unspentSum, ledgerSum. f_equal.
  unfold ledger_within in Hw. induction Hw as [|o l [Ho _] _ IH]; [done|].
  rewrite !filter_cons, IH.
  destruct (decide (address o = a ∧ spent o = false)) as [[? ?]|Hn].
  - by rewrite decide_True.
  - rewrite decide_False; [done|]. intros (? & ? & _). by apply Hn.
Qed.

Lemma debits_markDebits c txid ins :
  debits c ins = markDebits (tbl_outputs c) (inputMarks txid ins).
Proof.
  induction ins as [|i rest IH]; [done|].
  change (inputMarks txid (i :: rest))
    with ((txId i, index i, txid) :: inputMarks txid rest).
  rewrite markDebits_cons, <- IH. simpl.
  change (debits c (i :: rest))
    with (match (λ o, (address o, - value o)) <$> getUnspentOutput c (txId i) (index i) with
          | Some y => y :: debits c rest
          | None => debits c rest
          end).
  change (unspentAt (tbl_outputs c) (txId i, index i))
    with (getUnspentOutput c (txId i) (index i)).
  by destruct (getUnspentOutput c (txId i) (index i)).
Qed.

Lemma markDebits_app l ms1 ms2 :
  markDebits l (ms1 ++ ms2) = markDebits l ms1 ++ markDebits l ms2.
Proof. unfold markDebits. apply omap_app. Qed.

Lemma blockDeltas_sum c h txs a :
  deltaSum a (blockDeltas c txs)
  = deltaSum a (markDebits (tbl_outputs c) (blockMarks txs))
    + ledgerSum (blockRows h txs) a.
Proof.
  unfold blockDeltas, blockMarks, blockRows.
  induction txs as [|tx rest IH]; [done|].
  rewrite !bind_cons, markDebits_app, !deltaSum_app, ledgerSum_app, IH.
  rewrite (debits_markDebits c (t_id tx)), ledgerSum_newRows. lia.
Qed.

Lemma blockMarks_found c txs :
  Forall (conserves c) txs →
  Forall (λ m, is_Some (unspentAt (tbl_outputs c) m.1)) (blockMarks txs).
Proof.
  intros Hc. unfold blockMarks. apply Forall_bind.
  eapply Forall_impl; [exact Hc|]. intros tx (s & Hs & _).
  unfold inputMarks. apply Forall_fmap, Forall_forall. intros i Hi. simpl.
  exact (sumInputs_Some _ _ _ i Hs Hi).
Qed.

(** An accepted block that lists no output twice keeps the balances in
    agreement with the ledger. *)
Lemma addBlock_agrees db b db' :
  Consistent db → Agrees db →
  addBlock db b = (Returns None, db') →
  NoDup (blockInputs b) →
  Agrees db'.
Proof.
  intros Hcons Hag E Hnd a.
  pose proof (addBlock_consistent _ _ _ Hcons E) as (_ & Hw' & _).
  destruct Hcons as (Hkeys & Hw & _).
  rewrite (unspentSum_within _ _ Hw').
  specialize (Hag a). rewrite (unspentSum_within _ _ Hw) in Hag.
  pose proof (addBlock_run db b) as Hrun. rewrite E in Hrun.
  destruct Hrun as (_ & _ & _ & Hc & _).
  rewrite (addBlock_tables _ _ _ E). unfold getBalance in *. simpl.
  rewrite js_or_default in *.
  rewrite apply_deltas_lookup, Hag, ledgerSum_app.
  rewrite (ledgerSum_marks _ _ _ _ Hkeys Hnd (blockMarks_found _ _ Hc)).
  rewrite (blockDeltas_sum db (height b)). lia.
Qed.

(** A rollback that succeeds leaves balances that agree with the ledger,
    whatever they were before. *)
Lemma rollback_agrees db t :
  Reachable db → fst (rollback db t) = Returns None → Agrees (snd (rollback db t)).
Proof.
  intros Hreach Hok a.
  pose proof (reachable_consistent _ (reach_rollback db t Hreach)) as (_ & Hw & _).
  rewrite (unspentSum_within _ _ Hw). revert Hok Hw. rewrite rollback_run.
  case_decide; [done|]. simpl. intros _ Hw.
  unfold getBalance, ledgerSum. simpl.
  rewrite js_or_default, sumByAddress_lookup, list_filter_filter. f_equal.
  apply filter_ext_elem.
  intros o [Hbh _]%list_elem_of_filter. split; [tauto|].
  intros [? ?]. repeat split; (done || lia).
Qed.

(** The balance projection agrees with the ledger in every state reached
    with blocks that list no output twice among their inputs. *)
Lemma balances_agree_without_repeats db : ReachableOnce db → Agrees db.
Proof.
  assert (Hr : ∀ db, ReachableOnce db → Reachable db).
  { induction 1; eauto using Reachable. }
  induction 1 as [|db b Hreach IH Hnd|db t Hreach IH].
  - intros a. done.
  - pose proof (addBlock_run db b) as Hrun.
    destruct (addBlock db b) as [[[e|]|e] db'] eqn:E; simpl.
    + by destruct Hrun as [-> _].
    + eapply addBlock_agrees; eauto using reachable_consistent.
    + by destruct Hrun as [-> _].
  - pose proof (rollback_agrees db t (Hr _ Hreach)) as Hroll.
    revert Hroll. rewrite rollback_run. case_decide; simpl; [done|].
    intros Hroll. by apply Hroll.
Qed.

(** ** Rolling back accepted blocks *)

Lemma NoDup_fmap_inj_on {A B} (f : A → B) (l : list A) x y :
  NoDup (f <$> l) → x ∈ l → y ∈ l → f x = f y → x = y.
Proof.
  induction l as [|z l IH]; intros Hnd Hx Hy Hf; [by apply elem_of_nil in Hx|].
  rewrite fmap_cons in Hnd. apply NoDup_cons in Hnd as [Hz Hnd].
  apply elem_of_cons in Hx as [->|Hx]; apply elem_of_cons in Hy as [->|Hy].
  - done.
  - destruct Hz. rewrite Hf. apply list_elem_of_fmap. eauto.
  - destruct Hz. rewrite <- Hf. apply list_elem_of_fmap. eauto.
  - by apply IH.
Qed.

Lemma filter_Forall_nil {A} (P : A → Prop) `{∀ x, Decision (P x)} (l : list A) :
  Forall (λ x, ¬ P x) l → filter P l = [].
Proof.
  induction 1 as [|x l Hx _ IH]; [done|].
  by rewrite filter_cons, decide_False, IH.
Qed.

Lemma unspend_above_reset t o :
  spent o = false → spent_by_tx o = None → spent_at_height o = None →
  ∀ by_tx h, t < h →
  unspend_above t (mkOutputRecord (tx_id o) (output_index o) (address o) (value o)
                                  (block_height o) true (Some by_tx) (Some h)) = o.
Proof.
  intros Hs Hb Ha by_tx h Hlt. unfold unspend_above. simpl.
  rewrite decide_True by done. destruct o. simpl in *. by subst.
Qed.

(** Rolling back to the height a block was accepted at gives back the
    ledger it was accepted on. *)
Lemma rolledBack_accepted db b db' :
  Consistent db → addBlock db b = (Returns None, db') →
  rolledBackOutputs (getCurrentHeight db) (tbl_outputs db') = tbl_outputs db.
Proof.
  intros (Hnd & Hw & Hcl) E.
  pose proof (addBlock_run db b) as Hrun. rewrite E in Hrun.
  destruct Hrun as (Hh & _ & _ & Hc & _).
  rewrite (addBlock_tables _ _ _ E). simpl.
  unfold rolledBackOutputs. rewrite fmap_app, filter_app.
  rewrite (filter_Forall_nil _ (unspend_above _ <$> blockRows _ _)).
  2:{ apply Forall_fmap, Forall_blockRows. simpl. intros _ _ _ _.
      unfold unspend_above. simpl. lia. }
  rewrite app_nil_r. fold (rolledBackOutputs (getCurrentHeight db)
    (apply_marks (height b) (blockMarks (transactions b)) <$> tbl_outputs db)).
  unfold ledger_within, ledger_clean in *.
  pose proof (blockMarks_found _ _ Hc) as Hfound.
  unfold rolledBackOutputs. rewrite <- list_fmap_compose.
  rewrite (list_fmap_ext _ id (tbl_outputs db)).
  - rewrite list_fmap_id. apply filter_Forall_id.
    eapply Forall_impl; [exact Hw|]. simpl. intros o [? _]. lia.
  - intros i o Hi. simpl. apply list_elem_of_lookup_2 in Hi.
    rewrite Forall_forall in Hw, Hcl.
    destruct (apply_marks_cases (height b) (blockMarks (transactions b)) o)
      as [[_ ->]|[Hin [t ->]]].
    + apply unspend_above_id, Hw, Hi.
    + (* the row was found unspent by the spend check *)
      apply list_elem_of_fmap in Hin as (m & Hm & Hmin).
      rewrite Forall_forall in Hfound. destruct (Hfound m Hmin) as [o0 Ho0].
      apply head_Some_elem_of, list_elem_of_filter in Ho0 as [[[H1 H2] Hs] Ho0].
      assert (o0 = o) as ->.
      { eapply NoDup_fmap_inj_on; [exact Hnd|done|done|].
        rewrite Hm. unfold okey. rewrite H1, H2. by destruct m as [[]]. }
      destruct (Hcl o Hi Hs) as [Hb Ha].
      apply unspend_above_reset; [done..|lia].
Qed.

Lemma rolledBack_compose t t' l :
  t ≤ t' → rolledBackOutputs t (rolledBackOutputs t' l) = rolledBackOutputs t l.
Proof.
  intros Hle. unfold rolledBackOutputs.
  induction l as [|o l IH]; [done|].
  rewrite !fmap_cons, !filter_cons.
  assert (Hun : unspend_above t (unspend_above t' o) = unspend_above t o).
  { unfold unspend_above. destruct (spent_at_height o) as [s|] eqn:Es.
    - destruct (decide (t' < s)); simpl.
      + by rewrite decide_True by lia.
      + by rewrite Es.
    - by rewrite Es. }
  rewrite !block_height_unspend_above in *.
  destruct (decide (¬ t' < block_height o)) as [H1|H1].
  - rewrite fmap_cons, filter_cons, Hun, block_height_unspend_above, IH. done.
  - rewrite IH. rewrite decide_False; [done|]. lia.
Qed.

Lemma acceptAll_app db bs1 bs2 :
  acceptAll db (bs1 ++ bs2) = acceptAll db bs1 ≫= λ db1, acceptAll db1 bs2.
Proof.
  revert db. induction bs1 as [|b bs1 IH]; intros db; simpl; [done|].
  destruct (addBlock db b) as [[[e|]|e] db1]; [done| |done]. apply IH.
Qed.

Lemma acceptAll_reachable db bs db' :
  Reachable db → acceptAll db bs = Some db' → Reachable db'.
Proof.
  revert db. induction bs as [|b bs IH]; intros db Hr; simpl.
  - by intros [= <-].
  - destruct (addBlock db b) as [[[e|]|e] db1] eqn:E; [done| |done].
    apply IH. change db1 with (snd (Returns None, db1)). rewrite <- E.
    by constructor.
Qed.

Lemma acceptAll_once db bs db' :
  ReachableOnce db → Forall (λ b, NoDup (blockInputs b)) bs →
  acceptAll db bs = Some db' → ReachableOnce db'.
Proof.
  revert db. induction bs as [|b bs IH]; intros db Hr Hnd; simpl.
  - by intros [= <-].
  - apply Forall_cons in Hnd as [Hb Hnd].
    destruct (addBlock db b) as [[[e|]|e] db1] eqn:E; [done| |done].
    apply IH; [|done]. change db1 with (snd (Returns None, db1)). rewrite <- E.
    by constructor.
Qed.

(** After more accepted blocks, the height has grown by their number, the
    earlier block rows are the ones at or below the earlier height, and
    rolling the ledger back to that height gives the earlier ledger. *)
Lemma acceptAll_rolledBack bs : ∀ db db',
  Consistent db → acceptAll db bs = Some db' →
  getCurrentHeight db' = getCurrentHeight db + Z.of_nat (length bs)
  ∧ filter (λ blk, ¬ getCurrentHeight db < r_height blk) (tbl_blocks db') = tbl_blocks db
  ∧ rolledBackOutputs (getCurrentHeight db) (tbl_outputs db') = tbl_outputs db.
Proof.
  induction bs as [|b bs IH]; intros db db' Hcons; simpl.
  - intros [= <-]. split; [lia|]. split.
    + apply filter_Forall_id. eapply Forall_impl; [apply blocks_le_current|].
      simpl. lia.
    + apply rolledBackOutputs_within. by destruct Hcons as (_ & ? & _).
  - destruct (addBlock db b) as [[[e|]|e] db1] eqn:E; [done| |done].
    intros Hrest.
    pose proof (addBlock_consistent _ _ _ Hcons E) as Hcons1.
    destruct (IH _ _ Hcons1 Hrest) as (Hh & Hb & Hl).
    pose proof (getCurrentHeight_accepted _ _ _ E) as Hh1.
    pose proof (addBlock_run db b) as Hrun. rewrite E in Hrun.
    destruct Hrun as (Hhb & _ & _ & _ & _ & _ & Hb1 & _).
    split; [lia|]. split.
    + transitivity (filter (λ blk, ¬ getCurrentHeight db < r_height blk) (tbl_blocks db1)).
      * rewrite <- Hb, list_filter_filter. apply filter_ext_elem.
        intros blk _. split; [|tauto]. intros Hlt. split; [done|]. lia.
      * rewrite Hb1, filter_app, filter_cons, filter_nil. simpl.
        rewrite decide_False by lia. rewrite app_nil_r.
        apply filter_Forall_id. eapply Forall_impl; [apply blocks_le_current|].
        simpl. lia.
    + rewrite <- (rolledBack_compose _ (getCurrentHeight db1)) by lia.
      rewrite Hl. by apply rolledBack_accepted with b.
Qed.

(** Rolling back to the height reached after a prefix of the accepted
    blocks, none of which lists an output twice, succeeds and gives back
    the block rows, the ledger and every balance read after that prefix. *)
Lemma rollback_restores_prefix bs1 bs2 db1 db2 :
  acceptAll emptyDb bs1 = Some db1 →
  acceptAll db1 bs2 = Some db2 →
  Forall (λ b, NoDup (blockInputs b)) bs1 →
  fst (rollback db2 (Z.of_nat (length bs1))) = Returns None
  ∧ tbl_blocks (snd (rollback db2 (Z.of_nat (length bs1)))) = tbl_blocks db1
  ∧ tbl_outputs (snd (rollback db2 (Z.of_nat (length bs1)))) = tbl_outputs db1
  ∧ ∀ a, getBalance (snd (rollback db2 (Z.of_nat (length bs1)))) a = getBalance db1 a.
Proof.
  intros E1 E2 Hnd.
  assert (Hc0 : Consistent emptyDb) by (repeat split; constructor).
  destruct (acceptAll_rolledBack _ _ _ Hc0 E1) as (Hh1 & _ & _).
  change (getCurrentHeight emptyDb) with 0 in Hh1. rewrite Z.add_0_l in Hh1.
  pose proof (acceptAll_reachable _ _ _ reach_empty E1) as Hr1.
  pose proof (reachable_consistent _ Hr1) as Hc1.
  pose proof (balances_agree_without_repeats _
                (acceptAll_once _ _ _ once_empty Hnd E1)) as Hag.
  destruct (acceptAll_rolledBack _ _ _ Hc1 E2) as (Hh2 & Hb & Hl).
  rewrite <- Hh1, rollback_run.
  rewrite decide_False by lia. simpl.
  split; [done|]. split; [done|]. split; [done|].
  intros a. rewrite Hag, Hl. unfold getBalance, unspentSum. simpl.
  rewrite js_or_default, sumByAddress_lookup, list_filter_filter. f_equal.
  apply list_filter_iff. intros o. tauto.
Qed.

(** ** Spends across blocks *)

(** Once a block is accepted, none of the outputs its inputs refer to is
    found unspent any more. *)
Lemma accepted_inputs_spent db b db' k :
  addBlock db b = (Returns None, db') →
  k ∈ blockInputs b →
  getUnspentOutput db' k.1 k.2 = None.
Proof.
  intros E Hk. pose proof (addBlock_run db b) as Hrun. rewrite E in Hrun.
  destruct Hrun as (_ & _ & _ & Hc & Hfresh & _).
  rewrite (addBlock_tables _ _ _ E). unfold getUnspentOutput. simpl.
  rewrite filter_app, !filter_Forall_nil; [done| |].
  - apply Forall_forall. intros o Ho [[H1 H2] _].
    rewrite Forall_forall in Hfresh. apply (Hfresh k).
    + unfold blockKeys, blockRows in *.
      apply list_elem_of_bind in Ho as (tx & Ho & Htx).
      apply list_elem_of_bind. exists tx. split; [|done].
      unfold txKeys. rewrite <- (okeys_newRows _ (height b)).
      apply list_elem_of_fmap. exists o. split; [|done].
      unfold okey. rewrite H1, H2. by destruct k.
    + by eapply blockMarks_keys.
  - apply Forall_fmap, Forall_forall. intros o Ho. simpl. intros [[H1 H2] Hs].
    destruct (apply_marks_cases (height b) (blockMarks (transactions b)) o)
      as [[Hout Hsame]|[_ [t Hm]]].
    + apply Hout. pose proof (okey_apply_marks (height b) (blockMarks (transactions b)) o) as Hok.
      rewrite <- Hok. unfold okey. rewrite H1, H2. by destruct k.
    + by rewrite Hm in Hs.
Qed.

(** Accepting further blocks does not make a spent output unspent. *)
Lemma spent_persists db b db' k :
  k ∈ okey <$> tbl_outputs db →
  getUnspentOutput db k.1 k.2 = None →
  addBlock db b = (Returns None, db') →
  k ∈ okey <$> tbl_outputs db' ∧ getUnspentOutput db' k.1 k.2 = None.
Proof.
  intros Hk Hnone E. pose proof (addBlock_run db b) as Hrun. rewrite E in Hrun.
  destruct Hrun as (_ & _ & _ & _ & Hfresh & _ & _ & Hkeys).
  split; [rewrite Hkeys; apply elem_of_app; by left|].
  rewrite (addBlock_tables _ _ _ E). unfold getUnspentOutput in *. simpl.
  rewrite filter_app, !filter_Forall_nil; [done| |].
  - apply Forall_forall. intros o Ho [[H1 H2] _].
    rewrite Forall_forall in Hfresh. apply (Hfresh k); [|done].
    unfold blockKeys, blockRows in *.
    apply list_elem_of_bind in Ho as (tx & Ho & Htx).
    apply list_elem_of_bind. exists tx. split; [|done].
    unfold txKeys. rewrite <- (okeys_newRows _ (height b)).
    apply list_elem_of_fmap. exists o. split; [|done].
    unfold okey. rewrite H1, H2. by destruct k.
  - apply Forall_fmap, Forall_forall. intros o Ho. simpl. intros [[H1 H2] Hs].
    destruct (apply_marks_cases (height b) (blockMarks (transactions b)) o)
      as [[_ Hsame]|[_ [t Hm]]].
    + rewrite Hsame in H1, H2, Hs.
      assert (o ∈ filter (λ o, is_output k.1 k.2 o ∧ spent o = false) (tbl_outputs db))
        as Hin by (by apply list_elem_of_filter).
      destruct (filter _ (tbl_outputs db)); [by apply elem_of_nil in Hin|done].
    + by rewrite Hm in Hs.
Qed.

(** So a block that refers to an output spent by an earlier accepted block
    is not accepted, however many blocks were accepted in between. *)
Lemma second_spend_refused db b db' bs db'' b2 tx i :
  addBlock db b = (Returns None, db') →
  (txId i, index i) ∈ blockInputs b →
  acceptAll db' bs = Some db'' →
  tx ∈ transactions b2 → i ∈ inputs tx →
  fst (addBlock db'' b2) ≠ Returns None.
Proof.
  intros E Hi Hbs Htx Hin.
  assert (Hspent : (txId i, index i) ∈ okey <$> tbl_outputs db''
                   ∧ getUnspentOutput db'' (txId i) (index i) = None).
  { assert (H0 : (txId i, index i) ∈ okey <$> tbl_outputs db'
                 ∧ getUnspentOutput db' (txId i) (index i) = None).
    { split; [|exact (accepted_inputs_spent _ _ _ _ E Hi)].
      pose proof (addBlock_run db b) as Hrun. rewrite E in Hrun.
      destruct Hrun as (_ & _ & _ & Hc & _ & _ & _ & Hkeys).
      rewrite Hkeys. apply elem_of_app. left. by eapply blockMarks_keys. }
    clear E. revert db' H0 Hbs. induction bs as [|b1 bs IH]; intros db' H0; simpl.
    - by intros [= <-].
    - destruct (addBlock db' b1) as [[[e|]|e] dbn] eqn:E1; [done| |done].
      apply IH. destruct H0 as [H1 H2].
      exact (spent_persists _ _ _ (txId i, index i) H1 H2 E1). }
  intros Hacc. destruct (addBlock db'' b2) as [r dbf] eqn:E2. simpl in Hacc. subst r.
  destruct (accepted_inputs_committed _ _ _ tx i E2 Htx Hin) as [[o Ho] _].
  destruct Hspent as [_ Hnone]. congruence.
Qed.

(** * Test vectors and scenarios *)

Example sha256_empty :
  SHA256.hex "" = "e3b0c44298fc1c149afbf4c8996fb92427ae41e4649b934ca495991b7852b855".
Proof. vm_compute. reflexivity. Qed.

Example sha256_abc :
  SHA256.hex "abc" = "ba7816bf8f01cfea414140de5dae2223b00361a396177a9cb410ff61f20015ad".
Proof. vm_compute. reflexivity. Qed.

Example sha256_two_blocks :
  SHA256.hex "abcdbcdecdefdefgefghfghighijhijkijkljklmklmnlmnomnopnopq"
  = "248d6a61d20638b8e5c026930c3e6039a33ce45964ff2167f6ecedd419db06c1".
Proof. vm_compute. reflexivity. Qed.

Example string_of_Z_samples :
  string_of_Z 0 = "0" ∧ string_of_Z 12 = "12" ∧ string_of_Z (-5) = "-5".
Proof. vm_compute. auto. Qed.

(** ** The sample chains *)

Import Sample.

(** Scenarios 1 to 3 of the design document. *)
Example scenario_1_2_3 :
  addBlock emptyDb block1 = (Returns None, chain1)
  ∧ getBalance chain1 "addr1" = 100
  ∧ addBlock chain1 block2 = (Returns None, chain2)
  ∧ getBalance chain2 "addr1" = 0
  ∧ getBalance chain2 "addr2" = 60
  ∧ getBalance chain2 "addr3" = 40
  ∧ addBlock chain2 block3 = (Returns (Some (UnspentOutputNotFound "tx1" 0)), chain2).
Proof. vm_compute. repeat split. Qed.

(** Scenario 4: back to height 1, then a new block at height 2. *)
Example scenario_4 :
  let db := snd (rollback chain2 1) in
  fst (rollback chain2 1) = Returns None
  ∧ getBalance db "addr1" = 100
  ∧ getBalance db "addr2" = 0
  ∧ getBalance db "addr3" = 0
  ∧ r_height <$> tbl_blocks db = [1]
  ∧ fst (addBlock db block2) = Returns None.
Proof. vm_compute. repeat split. Qed.

(** After the block that lists tx1:0 twice, a rollback to the current
    height rebuilds the balances from the ledger: addr1 reads 0 again. *)
Example rollback_rebuilds_after_double_spend :
  getCurrentHeight chain2_twice = 2
  ∧ fst (rollback chain2_twice 2) = Returns None
  ∧ tbl_outputs (snd (rollback chain2_twice 2)) = tbl_outputs chain2_twice
  ∧ getBalance chain2_twice "addr1" = -100
  ∧ getBalance (snd (rollback chain2_twice 2)) "addr1" = 0.
Proof. vm_compute. repeat split. Qed.

(** * The claims *)

(** C1. On the chain holding the coinbase output tx1:0, the candidate at
    height 2 lists tx1:0 twice as an input. After the first input is
    processed the output is marked spent in the tables of the open
    transaction; the check for the second input still finds it, in the
    committed tables, and the block is accepted: addr1 is debited twice and
    200 is paid out of an output worth 100. *)
Theorem double_spend_within_block_accepted :
  (∃ w, processInputs "tx2" 2 [mkInput "tx1" 0] 0 chain1 chain1 = inr (inr 100, w)
        ∧ getUnspentOutput w "tx1" 0 = None
        ∧ getUnspentOutput chain1 "tx1" 0
          = Some (mkOutputRecord "tx1" 0 "addr1" 100 1 false None None))
  ∧ addBlock chain1 block2_twice = (Returns None, chain2_twice)
  ∧ getBalance chain1 "addr1" = 100
  ∧ getBalance chain2_twice "addr1" = -100
  ∧ getBalance chain2_twice "addr2" = 200.
Proof.
  split; [eexists; vm_compute; repeat split|].
  vm_compute. repeat split.
Qed.

(** C2. Three blocks are accepted from the empty chain, the second one
    listing tx1:0 twice. Rolling back to height 2 succeeds and leaves addr1
    with balance 0, while the balance read after the first two blocks
    was -100. *)
Theorem rollback_after_double_spend :
  acceptAll emptyDb [block1; block2_twice] = Some chain2_twice
  ∧ acceptAll emptyDb [block1; block2_twice; block3_empty] = Some chain3_twice
  ∧ fst (rollback chain3_twice 2) = Returns None
  ∧ getBalance (snd (rollback chain3_twice 2)) "addr1" = 0
  ∧ getBalance chain2_twice "addr1" = -100.
Proof. vm_compute. repeat split. Qed.

(** C3. The state after the coinbase block and the block listing tx1:0
    twice is reachable; there the stored balance of addr1 is -100 and the
    sum over its unspent ledger rows is 0. *)
Theorem balance_after_double_spend :
  Reachable chain2_twice
  ∧ getBalance chain2_twice "addr1" = -100
  ∧ unspentSum chain2_twice "addr1" = 0.
Proof.
  split; [apply reach_addBlock, reach_addBlock, reach_empty|].
  vm_compute. repeat split.
Qed.

(** C4. Whenever [addBlock] returns a validation error, of any of the four
    kinds and however late in the call it is detected, the tables are the
    ones the call started from: no block row, no spent flag, no new output
    and no balance change is committed. *)
Theorem addBlock_error_leaves_state db block err db' :
  addBlock db block = (Returns (Some err), db') →
  db' = db
  ∧ getCurrentHeight db' = getCurrentHeight db
  ∧ tbl_blocks db' = tbl_blocks db
  ∧ tbl_outputs db' = tbl_outputs db
  ∧ ∀ a, getBalance db' a = getBalance db a.
Proof.
  intros E. pose proof (addBlock_run db block) as Hrun. rewrite E in Hrun.
  destruct Hrun as [-> _]. done.
Qed.

(** A coinbase has been applied in the open transaction when the missing
    input of the next transaction is found out; nothing of it is kept. *)
Lemma addBlock_error_leaves_state_witness :
  (∃ w0 w, insertBlock (b_id block2_late_error) 2 chain1 chain1 = inr (tt, w0)
           ∧ processTransaction tx_mint 2 chain1 w0 = inr (None, w)
           ∧ getBalance w "addr4" = 7)
  ∧ addBlock chain1 block2_late_error
    = (Returns (Some (UnspentOutputNotFound "nonexistent" 0)), chain1)
  ∧ getBalance chain1 "addr4" = 0.
Proof.
  split; [do 2 eexists; vm_compute; repeat split|].
  assert (E : addBlock chain1 block2_late_error
              = (Returns (Some (UnspentOutputNotFound "nonexistent" 0)),
                 snd (addBlock chain1 block2_late_error)))
    by (vm_compute; reflexivity).
  destruct (addBlock_error_leaves_state _ _ _ _ E) as [Hdb _].
  rewrite Hdb in E. split; [exact E|]. vm_compute. reflexivity.
Defined.

(** C5. A block at height 1 holds a coinbase tx1 and then a transaction
    that spends tx1:0, created just before in the same block and not spent:
    the spend check looks in the committed tables, does not find it, and
    the block is refused with [UnspentOutputNotFound]. *)
Theorem chained_spend_within_block_refused :
  ("tx1", 0) ∈ blockKeys (transactions block1_chained)
  ∧ addBlock emptyDb block1_chained
    = (Returns (Some (UnspentOutputNotFound "tx1" 0)), emptyDb).
Proof. split; [by left|]. vm_compute. done. Qed.



(** C7. [addBlock] returns [InvalidHeight] unless the candidate's height is
    the current height plus one, the current height of the empty chain being
    0; so in every reachable state the heights of the block rows are
    1, 2, ..., current height, in this order, without gap or repeat. *)
Theorem heights_gapless :
  (∀ db b,
     height b ≠ getCurrentHeight db + 1 →
     addBlock db b
     = (Returns (Some (InvalidHeight (getCurrentHeight db + 1) (height b))), db))
  ∧ (∀ db b db',
       addBlock db b = (Returns None, db') → height b = getCurrentHeight db + 1)
  ∧ getCurrentHeight emptyDb = 0
  ∧ (∀ db,
       Reachable db →
       r_height <$> tbl_blocks db
       = Z.of_nat <$> seq 1 (Z.to_nat (getCurrentHeight db))
       ∧ 0 ≤ getCurrentHeight db
       ∧ NoDup (r_height <$> tbl_blocks db)).
Proof.
  split; [|split; [|split]].
  - intros db b Hh. unfold addBlock. by rewrite decide_True.
  - intros db b db' E. pose proof (addBlock_run db b) as Hrun.
    rewrite E in Hrun. by destruct Hrun as [? _].
  - done.
  - intros db Hreach. destruct (reachable_heights db Hreach) as [Hseq Hpos].
    split; [done|]. split; [done|].
    rewrite Hseq. apply NoDup_fmap; [apply _|apply NoDup_seq].
Qed.

(** A first block at height 5 is refused; after two blocks the heights
    are 1 and 2. *)
Lemma heights_gapless_witness :
  addBlock emptyDb block5 = (Returns (Some (InvalidHeight 1 5)), emptyDb)
  ∧ r_height <$> tbl_blocks chain2 = [1; 2].
Proof.
  destruct heights_gapless as (Hreject & _ & _ & Hreach). split.
  - apply (Hreject emptyDb block5). vm_compute. discriminate.
  - assert (R : Reachable chain2)
      by apply reach_addBlock, reach_addBlock, reach_empty.
    destruct (Hreach chain2 R) as (Hseq & _). exact Hseq.
Defined.





(** C10. A block that passes the height and identity checks and reaches, with
    no validation error before it, a transaction one of whose outputs has an
    identity already in the ledger makes [addBlock] throw a primary-key
    violation instead of returning a validation error; whatever [addBlock]
    throws, the tables are the ones the call started from; and no block
    that holds such a transaction is accepted. *)
Theorem addBlock_duplicate_output_throws :
  (∀ db b pre tx post,
     height b = getCurrentHeight db + 1 →
     b_id b = calculateBlockId (height b) (transactions b) →
     transactions b = pre ++ tx :: post →
     Forall (conserves db) pre →
     is_Some (sumInputs db (inputs tx)) →
     Exists (λ k, k ∈ okey <$> tbl_outputs db) (txKeys tx) →
     addBlock db b
     = (Throws (UniqueViolation (if decide (b_id b ∈ r_id <$> tbl_blocks db)
                                 then "blocks_pkey" else "outputs_pkey")), db))
  ∧ (∀ db b e db', addBlock db b = (Throws e, db') → db' = db)
  ∧ (∀ txid i addr v h c w,
       Exists (is_output txid i) (tbl_outputs w) →
       insertOutput txid i addr v h c w = inl (UniqueViolation "outputs_pkey"))
  ∧ (∀ db b tx,
       tx ∈ transactions b →
       Exists (λ k, k ∈ okey <$> tbl_outputs db) (txKeys tx) →
       fst (addBlock db b) ≠ Returns None).
Proof.
  split; [|split; [|split]].
  - intros db b pre tx post Hh Hid Htxs Hpre Hs Hdup.
    rewrite (addBlock_checked _ _ Hh Hid).
    unfold insertBlock at 1. sql_unfold.
    case_decide as Hidin; [done|].
    rewrite decide_False.
    2:{ intros (blk & Hb & Hin)%list_elem_of_fmap.
        pose proof (blocks_le_current db) as Hle. rewrite Forall_forall in Hle.
        specialize (Hle blk Hin). lia. }
    set (w0 := set_blocks _ db).
    assert (Hw0 : height b ∈ r_height <$> tbl_blocks w0)
      by apply height_after_insertBlock.
    rewrite Htxs, processTransactions_app.
    pose proof (processTransactions_pass pre (height b) db w0 Hw0 Hpre) as Hpass.
    destruct (processTransactions pre (height b) db w0) as [e|[[e|] w1]];
      [by subst e|done|].
    destruct Hpass as [Hb1 Hk1]. simpl.
    pose proof (processTransaction_run tx (height b) db w1) as Htx.
    rewrite Hb1 in Htx. specialize (Htx Hw0).
    assert (Hdup1 : Exists (λ k, k ∈ okey <$> tbl_outputs w1) (txKeys tx)).
    { eapply Exists_impl; [exact Hdup|]. intros k Hk. rewrite Hk1.
      apply elem_of_app. by left. }
    assert (Hcontra : ¬ Forall (λ k, k ∉ okey <$> tbl_outputs w1) (txKeys tx)).
    { intros Hf. apply Exists_exists in Hdup1 as (k & Hk & Hin).
      rewrite Forall_forall in Hf. by apply (Hf k Hk). }
    destruct (processTransaction tx (height b) db w1) as [e|[[e|] w2]] eqn:E1.
    + rewrite (Sql_bind_inl _ _ _ _ _ E1). by destruct Htx as [-> _].
    + destruct Htx as [Hm|[_ Hf]]; [|done].
      apply missingInput_sumInputs in Hm. rewrite Hm in Hs. by destruct Hs.
    + by destruct Htx as (_ & Hf & _).
  - intros db b e db' E. pose proof (addBlock_run db b) as Hrun.
    rewrite E in Hrun. by destruct Hrun as [-> _].
  - intros txid i addr v h c w Hex. unfold insertOutput. by rewrite decide_True.
  - intros db b tx Htx Hdup Hacc.
    pose proof (addBlock_run db b) as Hrun.
    destruct (addBlock db b) as [r db']. simpl in Hacc. subst r.
    destruct Hrun as (_ & _ & _ & _ & Hfresh & _).
    apply Exists_exists in Hdup as (k & Hk & Hin).
    rewrite Forall_forall in Hfresh. apply (Hfresh k); [|done].
    unfold blockKeys. apply list_elem_of_bind. eauto.
Qed.

(** A second transaction named tx1 meets the row of tx1:0. *)
Lemma addBlock_duplicate_output_throws_witness :
  ("tx1", 0) ∈ okey <$> tbl_outputs chain1
  ∧ addBlock chain1 block2_duplicate
    = (Throws (UniqueViolation "outputs_pkey"), chain1).
Proof.
  destruct addBlock_duplicate_output_throws as (Hthrow & _ & _ & _).
  split; [vm_compute; left|].
  apply (Hthrow chain1 block2_duplicate [] tx1_again []).
  - vm_compute. reflexivity.
  - vm_compute. reflexivity.
  - reflexivity.
  - constructor.
  - vm_compute. eexists. reflexivity.
  - vm_compute. left. left.
Defined.

(** * Further properties of the code *)

Import Cases.

Ltac concrete := vm_compute; reflexivity.
Ltac not_listed := apply (bool_decide_unpack _); vm_compute; exact I.

(** ** When a block is accepted *)

Lemma processTransactions_raises txs h c : ∀ w e,
  h ∈ r_height <$> tbl_blocks w →
  processTransactions txs h c w = inl e →
  ¬ (Forall (λ k, k ∉ okey <$> tbl_outputs w) (blockKeys txs)
     ∧ NoDup (blockKeys txs)).
Proof.
  induction txs as [|tx rest IH]; intros w e Hh; simpl.
  - sql_unfold. done.
  - pose proof (processTransaction_run tx h c w Hh) as Htx.
    destruct (processTransaction tx h c w) as [e1|[[e1|] w1]] eqn:E1.
    + rewrite (Sql_bind_inl _ _ _ _ _ E1). intros _ [Hfr _].
      destruct Htx as (_ & _ & Hex). unfold blockKeys in Hfr. simpl in Hfr.
      apply Forall_app in Hfr as [Hfr _].
      apply Exists_exists in Hex as (k & Hk & Hin).
      rewrite Forall_forall in Hfr. by apply (Hfr k Hk).
    + rewrite (Sql_bind_inr _ _ _ _ _ _ E1). sql_unfold. done.
    + rewrite (Sql_bind_inr _ _ _ _ _ _ E1).
      destruct Htx as (_ & _ & Hb1 & Hk1). intros E [Hfr Hnd].
      unfold blockKeys in Hfr, Hnd. simpl in Hfr, Hnd.
      apply Forall_app in Hfr as [_ Hfr].
      apply NoDup_app in Hnd as (_ & Hdisj & Hnd).
      apply (IH w1 e); [by rewrite Hb1|done|]. split; [|done].
      rewrite Hk1. apply Forall_forall. intros k Hk Hin.
      apply elem_of_app in Hin as [Hin|Hin].
      * rewrite Forall_forall in Hfr. by apply (Hfr k Hk).
      * by apply (Hdisj k Hin).
Qed.

Lemma current_height_free db :
  getCurrentHeight db + 1 ∉ r_height <$> tbl_blocks db.
Proof.
  intros Hin. apply list_elem_of_fmap in Hin as (b & Hb & Hin).
  pose proof (blocks_le_current db) as Hle. rewrite Forall_forall in Hle.
  specialize (Hle b Hin). lia.
Qed.

Lemma insertBlock_ok id h c w :
  id ∉ r_id <$> tbl_blocks w → h ∉ r_height <$> tbl_blocks w →
  insertBlock id h c w = inr (tt, set_blocks (λ bs, bs ++ [mkBlockRecord id h]) w).
Proof.
  intros Hid Hh. unfold insertBlock. by rewrite !decide_False.
Qed.

Lemma insertBlock_taken id h c w :
  id ∈ r_id <$> tbl_blocks w →
  insertBlock id h c w = inl (UniqueViolation "blocks_pkey").
Proof.
  intros Hid. unfold insertBlock. by rewrite decide_True.
Qed.

(** Every way a call that has passed the two checks can end, from the
    tables it starts on. *)
Lemma addBlock_outcome db b :
  height b = getCurrentHeight db + 1 →
  b_id b = calculateBlockId (height b) (transactions b) →
  match fst (addBlock db b) with
  | Returns None =>
      (b_id b ∉ r_id <$> tbl_blocks db)
      ∧ Forall (conserves db) (transactions b)
      ∧ Forall (λ k, k ∉ okey <$> tbl_outputs db) (blockKeys (transactions b))
      ∧ NoDup (blockKeys (transactions b))
  | Returns (Some e) =>
      (b_id b ∉ r_id <$> tbl_blocks db)
      ∧ ¬ Forall (conserves db) (transactions b)
  | Throws e =>
      (b_id b ∈ r_id <$> tbl_blocks db ∧ e = UniqueViolation "blocks_pkey")
      ∨ ((b_id b ∉ r_id <$> tbl_blocks db)
         ∧ e = UniqueViolation "outputs_pkey"
         ∧ ¬ (Forall (λ k, k ∉ okey <$> tbl_outputs db) (blockKeys (transactions b))
              ∧ NoDup (blockKeys (transactions b))))
  end.
Proof.
  intros Hh Hid. rewrite (addBlock_checked _ _ Hh Hid).
  destruct (decide (b_id b ∈ r_id <$> tbl_blocks db)) as [Hin|Hout].
  { rewrite (Sql_bind_inl _ _ _ _ _ (insertBlock_taken _ _ _ _ Hin)). by left. }
  assert (Hfree : height b ∉ r_height <$> tbl_blocks db)
    by (rewrite Hh; apply current_height_free).
  rewrite (Sql_bind_inr _ _ _ _ _ _ (insertBlock_ok _ _ db db Hout Hfree)).
  set (w0 := set_blocks _ db).
  assert (Hw0 : height b ∈ r_height <$> tbl_blocks w0)
    by apply height_after_insertBlock.
  pose proof (processTransactions_run (transactions b) (height b) db w0 Hw0) as Hrun.
  pose proof (processTransactions_raises (transactions b) (height b) db w0) as Hraise.
  destruct (processTransactions (transactions b) (height b) db w0)
    as [e|[[e|] w1]]; simpl.
  - right. split; [done|]. split; [done|]. by apply (Hraise e).
  - split; [done|]. intros Hc. apply Exists_exists in Hrun as (tx & Htx & Herr).
    rewrite Forall_forall in Hc. by eapply conserves_no_error; eauto.
  - by destruct Hrun as (? & ? & ? & _).
Qed.

(** The conditions under which a block is accepted. *)
Lemma addBlock_accepts_criterion db b :
  fst (addBlock db b) = Returns None
  ↔ height b = getCurrentHeight db + 1
    ∧ b_id b = calculateBlockId (height b) (transactions b)
    ∧ (b_id b ∉ r_id <$> tbl_blocks db)
    ∧ Forall (conserves db) (transactions b)
    ∧ Forall (λ k, k ∉ okey <$> tbl_outputs db) (blockKeys (transactions b))
    ∧ NoDup (blockKeys (transactions b)).
Proof.
  split.
  - intros E. pose proof (addBlock_run db b) as Hrun.
    destruct (addBlock db b) as [r db']. simpl in E. subst r.
    by destruct Hrun as (? & ? & ? & ? & ? & ? & _).
  - intros (Hh & Hid & Hfresh & Hc & Hfr & Hnd).
    pose proof (addBlock_outcome db b Hh Hid) as Hout.
    destruct (fst (addBlock db b)) as [[e|]|e]; [|done|].
    + by destruct Hout as [_ []].
    + destruct Hout as [[? _]|(_ & _ & [])]; done.
Qed.





(** X3. After an accepted block the balance of an address is the balance
    read before the call, plus the values of the block's outputs paid to
    it, minus, for every input of the block, the value of the committed
    output it refers to when that output belongs to the address. *)
Theorem addBlock_balance_change db b db' a :
  addBlock db b = (Returns None, db') →
  getBalance db' a
  = getBalance db a + deltaSum a (blockDeltas db (transactions b)).
Proof.
  intros E. rewrite (addBlock_tables _ _ _ E). unfold getBalance. simpl.
  rewrite !js_or_default. apply apply_deltas_lookup.
Qed.

(** Block 2 takes 100 from addr1. *)
Lemma addBlock_balance_change_witness :
  getBalance chain2 "addr1"
  = getBalance chain1 "addr1" + deltaSum "addr1" (blockDeltas chain1 (transactions block2))
  ∧ getBalance chain1 "addr1" = 100
  ∧ getBalance chain2 "addr1" = 0.
Proof.
  split; [|split; concrete].
  apply (addBlock_balance_change chain1 block2 chain2 "addr1"). concrete.
Defined.

(** X4. A block without transactions that passes the checks is accepted:
    it adds its block row and leaves the ledger and the balances as they
    were. *)
Theorem addBlock_empty_block db b :
  transactions b = [] →
  height b = getCurrentHeight db + 1 →
  b_id b = calculateBlockId (height b) [] →
  b_id b ∉ r_id <$> tbl_blocks db →
  addBlock db b
  = (Returns None,
     mkDb (tbl_blocks db ++ [mkBlockRecord (b_id b) (height b)])
          (tbl_outputs db) (tbl_balances db)).
Proof.
  intros Htx Hh Hid Hfresh. rewrite <- Htx in Hid.
  rewrite (addBlock_checked _ _ Hh Hid).
  assert (Hfree : height b ∉ r_height <$> tbl_blocks db)
    by (rewrite Hh; apply current_height_free).
  rewrite (Sql_bind_inr _ _ _ _ _ _ (insertBlock_ok _ _ db db Hfresh Hfree)).
  rewrite Htx. simpl. sql_unfold. by destruct db.
Qed.

(** An empty third block on the chain of two. *)
Lemma addBlock_empty_block_witness :
  addBlock chain2 block3_empty
  = (Returns None,
     mkDb (tbl_blocks chain2 ++ [mkBlockRecord (b_id block3_empty) 3])
          (tbl_outputs chain2) (tbl_balances chain2)).
Proof.
  apply (addBlock_empty_block chain2 block3_empty).
  - reflexivity.
  - concrete.
  - concrete.
  - not_listed.
Defined.

(** ** Rows found by identity *)

Lemma head_filter_unique {A B} `{EqDecision B} (f : A → B) (l : list A) x :
  NoDup (f <$> l) → x ∈ l →
  head (filter (λ y, f y = f x) l) = Some x.
Proof.
  induction l as [|y l IH]; intros Hnd Hx; [by apply elem_of_nil in Hx|].
  rewrite fmap_cons in Hnd. apply NoDup_cons in Hnd as [Hy Hnd].
  rewrite filter_cons. apply elem_of_cons in Hx as [->|Hx].
  - by rewrite decide_True.
  - rewrite decide_False; [by apply IH|].
    intros Heq. apply Hy. rewrite Heq. by apply list_elem_of_fmap_2.
Qed.

Lemma is_output_okey txid idx o : is_output txid idx o ↔ okey o = (txid, idx).
Proof. unfold is_output, okey. split; [by intros [-> ->]|by intros [= -> ->]]. Qed.

Lemma getOutput_unique db o :
  NoDup (okey <$> tbl_outputs db) → o ∈ tbl_outputs db →
  getOutput db (tx_id o) (output_index o) = Some (selected o).
Proof.
  intros Hnd Ho. unfold getOutput.
  rewrite (filter_ext_elem (is_output (tx_id o) (output_index o))
             (λ y, okey y = okey o) (tbl_outputs db)).
  - by rewrite (head_filter_unique okey _ o Hnd Ho).
  - intros x _. apply is_output_okey.
Qed.

Lemma getOutput_key db txid idx o' :
  getOutput db txid idx = Some o' →
  ∃ o, o ∈ tbl_outputs db ∧ okey o = (txid, idx) ∧ o' = selected o.
Proof.
  unfold getOutput. intros H. apply fmap_Some in H as (o & H & ->).
  apply head_Some_elem_of, list_elem_of_filter in H as [[<- <-] Ho].
  by exists o.
Qed.

(** The transaction recorded on a row spent by a block lists it. *)
Lemma apply_marks_spender h ms o :
  okey o ∈ ms.*1 →
  ∃ by_tx, (okey o, by_tx) ∈ ms
    ∧ apply_marks h ms o
      = mkOutputRecord (tx_id o) (output_index o) (address o) (value o)
                       (block_height o) true (Some by_tx) (Some h).
Proof.
  induction ms as [|m ms IH] using rev_ind; [by intros ?%elem_of_nil|].
  intros Hin. rewrite apply_marks_app. unfold apply_marks at 1. simpl.
  destruct (decide (is_output m.1.1 m.1.2 (apply_marks h ms o))) as [Hk|Hk].
  - rewrite (apply_mark_hit _ _ _ Hk). exists m.2. split.
    + apply elem_of_app. right. apply list_elem_of_singleton.
      apply is_output_okey in Hk. rewrite okey_apply_marks in Hk.
      rewrite Hk. by destruct m as [[]].
    + destruct (apply_marks_cases h ms o) as [[_ ->]|[_ [t ->]]]; done.
  - rewrite (apply_mark_miss _ _ _ Hk).
    rewrite fmap_app in Hin. apply elem_of_app in Hin as [Hin|Hin].
    + destruct (IH Hin) as (t & Ht & ->). exists t. split; [|done].
      apply elem_of_app. by left.
    + apply list_elem_of_singleton in Hin. simpl in Hin. destruct Hk.
      apply is_output_okey. by rewrite okey_apply_marks, Hin, <- surjective_pairing.
Qed.

Lemma blockMarks_elem txs k by_tx :
  (k, by_tx) ∈ blockMarks txs ↔
  ∃ tx i, tx ∈ txs ∧ i ∈ inputs tx ∧ by_tx = t_id tx ∧ k = (txId i, index i).
Proof.
  unfold blockMarks, inputMarks. rewrite list_elem_of_bind. split.
  - intros (tx & Hin & Htx). apply list_elem_of_fmap in Hin as (i & [= -> ->] & Hi).
    by exists tx, i.
  - intros (tx & i & Htx & Hi & -> & ->). exists tx. split; [|done].
    apply list_elem_of_fmap. by exists i.
Qed.

(** X5. Every input of a block accepted on a reachable state refers to a
    ledger row that was committed and unspent before the call and was
    created by an earlier block, never to an output of the block itself.
    After the call the row is no longer found unspent: [getOutput] shows
    it spent, and the ledger records the height of the block and a
    transaction of the block that lists it. *)
Theorem accepted_input_spends_committed db b db' tx i :
  Reachable db →
  addBlock db b = (Returns None, db') →
  tx ∈ transactions b → i ∈ inputs tx →
  ∃ o by_tx,
    getUnspentOutput db (txId i) (index i) = Some o
    ∧ block_height o < height b
    ∧ ((txId i, index i) ∉ blockKeys (transactions b))
    ∧ getUnspentOutput db' (txId i) (index i) = None
    ∧ getOutput db' (txId i) (index i)
      = Some (mkOutputRecord (txId i) (index i) (address o) (value o)
                             (block_height o) true None None)
    ∧ mkOutputRecord (txId i) (index i) (address o) (value o)
                     (block_height o) true (Some by_tx) (Some (height b))
      ∈ tbl_outputs db'
    ∧ ∃ tx', tx' ∈ transactions b ∧ t_id tx' = by_tx
             ∧ ∃ i', i' ∈ inputs tx' ∧ txId i' = txId i ∧ index i' = index i.
Proof.
  intros Hreach E Htx Hi.
  pose proof (reachable_consistent _ Hreach) as Hcons.
  pose proof (addBlock_consistent _ _ _ Hcons E) as (Hnd' & _ & _).
  destruct Hcons as (Hnd & Hw & _).
  destruct (accepted_inputs_committed _ _ _ _ _ E Htx Hi) as [[o Ho] Hown].
  pose proof (addBlock_run db b) as Hrun. rewrite E in Hrun.
  destruct Hrun as (Hh & _).
  destruct (getUnspentOutput_key _ _ _ _ Ho) as (Hin & Hkey & _).
  assert (Hmark : (okey o, t_id tx) ∈ blockMarks (transactions b)).
  { rewrite Hkey. apply blockMarks_elem. by exists tx, i. }
  destruct (apply_marks_spender (height b) (blockMarks (transactions b)) o)
    as (by_tx & Hby & Hrow).
  { apply list_elem_of_fmap. by exists (okey o, t_id tx). }
  exists o, by_tx. split; [done|]. split.
  { unfold ledger_within in Hw. rewrite Forall_forall in Hw.
    destruct (Hw o Hin) as [Hle _]. lia. }
  split; [done|]. split.
  { apply (accepted_inputs_spent _ _ _ (txId i, index i) E).
    unfold blockInputs. apply list_elem_of_fmap.
    exists (txId i, index i, t_id tx). split; [done|]. by rewrite <- Hkey. }
  assert (Hin' : apply_marks (height b) (blockMarks (transactions b)) o
                 ∈ tbl_outputs db').
  { rewrite (addBlock_tables _ _ _ E). simpl. apply elem_of_app. left.
    by apply list_elem_of_fmap_2. }
  injection Hkey as Ht Hx. rewrite <- Ht, <- Hx. split; [|split].
  - pose proof (getOutput_unique db' _ Hnd' Hin') as Hget.
    by rewrite Hrow in Hget.
  - by rewrite <- Hrow.
  - apply blockMarks_elem in Hby as (tx' & i' & Htx' & Hi' & -> & Hk').
    exists tx'. split; [done|]. split; [done|]. exists i'. split; [done|].
    unfold okey in Hk'. by injection Hk' as -> ->.
Qed.

(** Block 2 spends tx1:0, created at height 1. *)
Lemma accepted_input_spends_committed_witness :
  ∃ o by_tx,
    getUnspentOutput chain1 "tx1" 0 = Some o
    ∧ block_height o < 2
    ∧ (("tx1", 0) ∉ blockKeys (transactions block2))
    ∧ getUnspentOutput chain2 "tx1" 0 = None
    ∧ getOutput chain2 "tx1" 0
      = Some (mkOutputRecord "tx1" 0 (address o) (value o)
                             (block_height o) true None None)
    ∧ mkOutputRecord "tx1" 0 (address o) (value o)
                     (block_height o) true (Some by_tx) (Some 2)
      ∈ tbl_outputs chain2
    ∧ ∃ tx', tx' ∈ transactions block2 ∧ t_id tx' = by_tx
             ∧ ∃ i', i' ∈ inputs tx' ∧ txId i' = "tx1" ∧ index i' = 0.
Proof.
  apply (accepted_input_spends_committed chain1 block2 chain2 tx2 (mkInput "tx1" 0)).
  - apply reach_addBlock, reach_empty.
  - concrete.
  - by left.
  - by left.
Defined.

Lemma spent_after_blocks db b db' bs : ∀ db'' k,
  addBlock db b = (Returns None, db') →
  k ∈ blockInputs b →
  acceptAll db' bs = Some db'' →
  k ∈ okey <$> tbl_outputs db'' ∧ getUnspentOutput db'' k.1 k.2 = None.
Proof.
  induction bs as [|b0 bs IH] using rev_ind; intros db'' k E Hk Hbs.
  - simpl in Hbs. injection Hbs as <-. split.
    + pose proof (addBlock_run db b) as Hrun. rewrite E in Hrun.
      destruct Hrun as (_ & _ & _ & Hc & _ & _ & _ & Hkeys).
      rewrite Hkeys. apply elem_of_app. left.
      unfold blockInputs in Hk. apply list_elem_of_fmap in Hk as ([k' t] & -> & Hm).
      apply blockMarks_elem in Hm as (tx0 & i0 & Htx0 & Hi0 & _ & ->).
      rewrite Forall_forall in Hc. destruct (Hc tx0 Htx0) as (s & Hs & _).
      destruct (sumInputs_Some _ _ _ i0 Hs Hi0) as [o0 Ho0].
      apply getUnspentOutput_key in Ho0 as (Ho0 & Hkey0 & _).
      simpl. rewrite <- Hkey0. by apply list_elem_of_fmap_2.
    + by apply (accepted_inputs_spent _ _ _ k E).
  - rewrite acceptAll_app in Hbs.
    destruct (acceptAll db' bs) as [dbk|] eqn:Ek; [|done]. simpl in Hbs.
    destruct (addBlock dbk b0) as [[[e0|]|e0] dbl] eqn:E0; [done| |done].
    injection Hbs as <-.
    destruct (IH dbk k E Hk eq_refl) as [Hk1 Hk2].
    by apply (spent_persists dbk b0 dbl k).
Qed.

(** X6. An output spent by an accepted block stays spent while blocks are
    accepted: however many blocks follow, it is not found unspent, and a
    block one of whose inputs refers to it is not accepted. *)
Theorem spent_output_not_spent_again db b db' bs db'' b2 tx i :
  addBlock db b = (Returns None, db') →
  (txId i, index i) ∈ blockInputs b →
  acceptAll db' bs = Some db'' →
  tx ∈ transactions b2 → i ∈ inputs tx →
  getUnspentOutput db'' (txId i) (index i) = None
  ∧ fst (addBlock db'' b2) ≠ Returns None.
Proof.
  intros E Hi Hbs Htx Hin. split; [|by eapply second_spend_refused].
  by destruct (spent_after_blocks _ _ _ _ _ _ E Hi Hbs).
Qed.

(** Block 3 tries to spend tx1:0 again after block 2 spent it. *)
Lemma spent_output_not_spent_again_witness :
  getUnspentOutput chain2 "tx1" 0 = None
  ∧ fst (addBlock chain2 block3) ≠ Returns None.
Proof.
  apply (spent_output_not_spent_again chain1 block2 chain2 [] chain2 block3 tx3
           (mkInput "tx1" 0)).
  - concrete.
  - vm_compute. by left.
  - reflexivity.
  - by left.
  - by left.
Defined.

(** ** Induction over the reachable states *)

Lemma Reachable_cases (P : Db → Prop) :
  P emptyDb →
  (∀ db b db', Reachable db → P db →
               addBlock db b = (Returns None, db') → P db') →
  (∀ db t, Reachable db → P db → t ≤ getCurrentHeight db →
           P (mkDb (filter (λ b, ¬ t < r_height b) (tbl_blocks db))
                   (rolledBackOutputs t (tbl_outputs db))
                   (sumByAddress (filter (λ o, block_height o ≤ t ∧ spent o = false)
                                         (rolledBackOutputs t (tbl_outputs db)))))) →
  ∀ db, Reachable db → P db.
Proof.
  intros Hempty Hadd Hroll db Hreach.
  induction Hreach as [|db b Hreach IH|db t Hreach IH]; [done| |].
  - pose proof (addBlock_run db b) as Hrun.
    destruct (addBlock db b) as [[[e|]|e] db'] eqn:E; simpl.
    + by destruct Hrun as [-> _].
    + by apply (Hadd db b).
    + by destruct Hrun as [-> _].
  - rewrite rollback_run. case_decide; simpl; [done|]. apply Hroll; [done..|lia].
Qed.

Lemma elem_of_rolledBack t l o' :
  o' ∈ rolledBackOutputs t l
  ↔ block_height o' ≤ t ∧ ∃ o, o ∈ l ∧ o' = unspend_above t o.
Proof.
  unfold rolledBackOutputs. rewrite list_elem_of_filter, list_elem_of_fmap.
  split.
  - intros [Hle (o & -> & Ho)]. split; [lia|by exists o].
  - intros [Hle (o & Ho & ->)]. split; [lia|by exists o].
Qed.

(** ** The constraints of the schema *)

Lemma reachable_schema db : Reachable db → schema_ok db.
Proof.
  intros Hreach. unfold schema_ok.
  split; [|split; [|split]].
  - induction Hreach as [|db b db' Hreach IH E|db t Hreach IH Ht]
      using Reachable_cases; simpl.
    + constructor.
    + pose proof (addBlock_run db b) as Hrun. rewrite E in Hrun.
      destruct Hrun as (_ & _ & Hfresh & _ & _ & _ & -> & _).
      rewrite fmap_app. apply NoDup_app. split; [done|]. split.
      * intros x Hx [->|[]%elem_of_nil]%elem_of_cons. done.
      * apply NoDup_singleton.
    + eapply sublist_NoDup; [exact IH|]. apply fmap_sublist, sublist_filter.
  - destruct (reachable_heights db Hreach) as [-> _].
    apply NoDup_fmap; [apply _|apply NoDup_seq].
  - by destruct (reachable_consistent db Hreach).
  - induction Hreach as [|db b db' Hreach IH E|db t Hreach IH Ht]
      using Reachable_cases; simpl.
    + constructor.
    + rewrite (addBlock_tables _ _ _ E). simpl. rewrite fmap_app.
      apply Forall_app. split.
      * apply Forall_fmap. eapply Forall_impl; [exact IH|]. intros o Ho. simpl.
        apply elem_of_app. left.
        destruct (apply_marks_cases (height b) (blockMarks (transactions b)) o)
          as [[_ ->]|[_ [t ->]]]; done.
      * apply Forall_blockRows. intros txid i addr v. simpl.
        apply elem_of_app. right. by left.
    + apply Forall_forall. intros o' [Hle (o & Ho & ->)]%elem_of_rolledBack.
      rewrite block_height_unspend_above in *.
      rewrite Forall_forall in IH. specialize (IH o Ho).
      apply list_elem_of_fmap in IH as (blk & Hb & Hblk).
      apply list_elem_of_fmap. exists blk. split; [done|].
      apply list_elem_of_filter. split; [lia|done].
Qed.

Lemma reachable_block_ids db :
  Reachable db →
  Forall (λ blk, ∃ txs, r_id blk = calculateBlockId (r_height blk) txs)
         (tbl_blocks db).
Proof.
  induction 1 as [|db b db' Hreach IH E|db t Hreach IH Ht]
    using Reachable_cases; simpl.
  - constructor.
  - pose proof (addBlock_run db b) as Hrun. rewrite E in Hrun.
    destruct Hrun as (_ & Hid & _ & _ & _ & _ & -> & _).
    apply Forall_app. split; [done|]. apply Forall_singleton.
    by exists (transactions b).
  - apply Forall_forall. intros blk [_ Hb]%list_elem_of_filter.
    rewrite Forall_forall in IH. by apply IH.
Qed.

Lemma reachable_spends_above db :
  Reachable db →
  Forall (λ o, match spent o, spent_by_tx o, spent_at_height o with
               | false, None, None => True
               | true, Some _, Some s => block_height o < s
               | _, _, _ => False
               end) (tbl_outputs db).
Proof.
  induction 1 as [|db b db' Hreach IH E|db t Hreach IH Ht]
    using Reachable_cases; simpl.
  - constructor.
  - rewrite (addBlock_tables _ _ _ E). simpl.
    pose proof (addBlock_run db b) as Hrun. rewrite E in Hrun.
    destruct Hrun as (Hh & _).
    destruct (reachable_consistent _ Hreach) as (_ & Hw & _).
    apply Forall_app. split.
    + apply Forall_fmap, Forall_forall. intros o Ho. unfold compose.
      rewrite Forall_forall in IH. specialize (IH o Ho). simpl in IH.
      unfold ledger_within in Hw. rewrite Forall_forall in Hw.
      destruct (Hw o Ho) as [Hle _].
      destruct (apply_marks_cases (height b) (blockMarks (transactions b)) o)
        as [[_ Hsame]|[_ [by_tx Hsame]]]; rewrite Hsame; [exact IH|]. simpl. lia.
    + by apply Forall_blockRows.
  - apply Forall_forall. intros o' [Hle (o & Ho & ->)]%elem_of_rolledBack.
    rewrite Forall_forall in IH. specialize (IH o Ho).
    unfold unspend_above. destruct (spent_at_height o) as [s|] eqn:Es.
    + case_decide; [done|]. by rewrite Es.
    + by rewrite Es.
Qed.


(** X7. In every state the service can reach the constraints of the schema
    hold: block ids are distinct, block heights are distinct, the
    identities (transaction id, output index) of the ledger rows are
    distinct, and every ledger row refers to the height of a block row.
    Every block id is the computed id of its height for some list of
    transactions, hence 64 lowercase hexadecimal digits. *)
Theorem reachable_schema_constraints db :
  Reachable db →
  NoDup (r_id <$> tbl_blocks db)
  ∧ NoDup (r_height <$> tbl_blocks db)
  ∧ NoDup (okey <$> tbl_outputs db)
  ∧ Forall (λ o, block_height o ∈ r_height <$> tbl_blocks db) (tbl_outputs db)
  ∧ Forall (λ blk, (∃ txs, r_id blk = calculateBlockId (r_height blk) txs)
                   ∧ String.length (r_id blk) = 64%nat
                   ∧ Forall lower_hex (list_ascii_of_string (r_id blk)))
           (tbl_blocks db).
Proof.
  intros Hreach. destruct (reachable_schema db Hreach) as (? & ? & ? & ?).
  repeat (split; [done|]).
  eapply Forall_impl; [exact (reachable_block_ids db Hreach)|].
  intros blk [txs Hid]. split; [by exists txs|]. rewrite Hid.
  unfold calculateBlockId. apply hex_format.
Qed.

Lemma reachable_schema_constraints_witness :
  NoDup (r_id <$> tbl_blocks chain2)
  ∧ NoDup (r_height <$> tbl_blocks chain2)
  ∧ NoDup (okey <$> tbl_outputs chain2)
  ∧ Forall (λ o, block_height o ∈ r_height <$> tbl_blocks chain2) (tbl_outputs chain2)
  ∧ Forall (λ blk, (∃ txs, r_id blk = calculateBlockId (r_height blk) txs)
                   ∧ String.length (r_id blk) = 64%nat
                   ∧ Forall lower_hex (list_ascii_of_string (r_id blk)))
           (tbl_blocks chain2).
Proof.
  apply (reachable_schema_constraints chain2).
  apply reach_addBlock, reach_addBlock, reach_empty.
Defined.

(** X8. In every state the service can reach, each ledger row was created
    at a height from 1 to the current height, and either it is unspent and
    records no spending transaction and no spending height, or it is spent
    and records both, the spending height being above the height it was
    created at and at most the current height. *)
Theorem reachable_spend_columns db :
  Reachable db → Forall (spend_coherent (getCurrentHeight db)) (tbl_outputs db).
Proof.
  intros Hreach.
  destruct (reachable_consistent _ Hreach) as (_ & Hw & _).
  destruct (reachable_schema db Hreach) as (_ & _ & _ & Hfk).
  destruct (reachable_heights db Hreach) as [Hseq _].
  pose proof (reachable_spends_above db Hreach) as Hsp.
  unfold ledger_within in Hw. rewrite Forall_forall in Hw, Hfk, Hsp.
  apply Forall_forall. intros o Ho. specialize (Hsp o Ho).
  destruct (Hw o Ho) as [Hle Hs]. split.
  - split; [|done]. specialize (Hfk o Ho). rewrite Hseq in Hfk.
    apply list_elem_of_fmap in Hfk as (n & -> & Hn).
    apply elem_of_seq in Hn. lia.
  - destruct (spent o), (spent_by_tx o), (spent_at_height o) as [h|]; try done.
    split; [done|]. by apply Hs.
Qed.

Lemma reachable_spend_columns_witness :
  Forall (spend_coherent (getCurrentHeight chain2)) (tbl_outputs chain2).
Proof.
  apply (reachable_spend_columns chain2).
  apply reach_addBlock, reach_addBlock, reach_empty.
Defined.

(** ** Balances and rollbacks *)

(** X9. As long as no submitted block lists the same output twice among
    its inputs, in every state reached by [addBlock] and [rollback] the
    stored balance of every address is the sum of the values of its
    unspent ledger rows. *)
Theorem balance_is_unspent_sum db a :
  ReachableOnce db → getBalance db a = unspentSum db a.
Proof. intros Hreach. by apply balances_agree_without_repeats. Qed.

Lemma balance_is_unspent_sum_witness :
  getBalance chain2 "addr2" = unspentSum chain2 "addr2".
Proof.
  apply (balance_is_unspent_sum chain2 "addr2").
  apply once_addBlock; [apply once_addBlock; [apply once_empty|]|].
  - vm_compute. constructor.
  - vm_compute. apply NoDup_singleton.
Defined.

(** X10. After a rollback that succeeds on a reachable state, the stored
    balance of every address is the sum of the values of its unspent ledger
    rows, whatever the balances were before the rollback. *)
Theorem rollback_rebuilds_balances db t a :
  Reachable db → t ≤ getCurrentHeight db →
  getBalance (snd (rollback db t)) a = unspentSum (snd (rollback db t)) a.
Proof.
  intros Hreach Ht. apply rollback_agrees; [done|].
  rewrite rollback_run. by rewrite decide_False by lia.
Qed.

(** The chain whose second block listed tx1:0 twice, rolled back to 1. *)
Lemma rollback_rebuilds_balances_witness :
  getBalance (snd (rollback chain2_twice 1)) "addr1"
  = unspentSum (snd (rollback chain2_twice 1)) "addr1".
Proof.
  apply (rollback_rebuilds_balances chain2_twice 1 "addr1").
  - apply reach_addBlock, reach_addBlock, reach_empty.
  - vm_compute. discriminate.
Defined.

(** X11. Accepting blocks from the empty chain, none of the first [n]
    listing an output twice, and then rolling back to height [n] gives back
    the block rows, the ledger and the balances that were there after the
    first [n] blocks. *)
Theorem rollback_undoes_blocks bs1 bs2 db1 db2 :
  acceptAll emptyDb bs1 = Some db1 →
  acceptAll db1 bs2 = Some db2 →
  Forall (λ b, NoDup (blockInputs b)) bs1 →
  fst (rollback db2 (Z.of_nat (length bs1))) = Returns None
  ∧ tbl_blocks (snd (rollback db2 (Z.of_nat (length bs1)))) = tbl_blocks db1
  ∧ tbl_outputs (snd (rollback db2 (Z.of_nat (length bs1)))) = tbl_outputs db1
  ∧ ∀ a, getBalance (snd (rollback db2 (Z.of_nat (length bs1)))) a = getBalance db1 a.
Proof. apply rollback_restores_prefix. Qed.

Lemma rollback_undoes_blocks_witness :
  fst (rollback chain2 1) = Returns None
  ∧ tbl_blocks (snd (rollback chain2 1)) = tbl_blocks chain1
  ∧ tbl_outputs (snd (rollback chain2 1)) = tbl_outputs chain1
  ∧ ∀ a, getBalance (snd (rollback chain2 1)) a = getBalance chain1 a.
Proof.
  apply (rollback_undoes_blocks [block1] [block2] chain1 chain2).
  - concrete.
  - concrete.
  - constructor; [|constructor]. vm_compute. constructor.
Defined.

Lemma height_after_rollback db t :
  Reachable db → t ≤ getCurrentHeight db →
  getCurrentHeight (snd (rollback db t)) = Z.max 0 t.
Proof.
  intros Hreach Ht. destruct (reachable_heights db Hreach) as [Hseq Hpos].
  rewrite rollback_run, decide_False by lia. simpl.
  rewrite (getCurrentHeight_seq _ (Z.to_nat (getCurrentHeight db) `min` Z.to_nat t)).
  - lia.
  - simpl. by rewrite heights_filter, Hseq, filter_le_seq.
Qed.






(** ** The sum of all balances *)









(** ** The block identifier and the boundaries between ids *)

Lemma string_app_empty_r (s : string) : String.append s "" = s.
Proof.
  induction s as [|c s IH]; [done|].
  change (String c (String.append s "") = String c s). by rewrite IH.
Qed.

Lemma string_app_assoc (s1 s2 s3 : string) :
  String.append (String.append s1 s2) s3 = String.append s1 (String.append s2 s3).
Proof.
  induction s1 as [|c s1 IH]; [done|].
  change (String c (String.append (String.append s1 s2) s3)
          = String c (String.append s1 (String.append s2 s3))).
  by rewrite IH.
Qed.

Lemma concat_empty_cons (x : string) (xs : list string) :
  String.concat "" (x :: xs) = String.append x (String.concat "" xs).
Proof. destruct xs; [symmetry; apply string_app_empty_r|done]. Qed.

Lemma concat_empty_app (l1 l2 : list string) :
  String.concat "" (l1 ++ l2)
  = String.append (String.concat "" l1) (String.concat "" l2).
Proof.
  induction l1 as [|x l1 IH]; [done|].
  rewrite <- app_comm_cons, !concat_empty_cons, IH. by rewrite string_app_assoc.
Qed.

(** X15. The computed block id does not tell where one transaction id ends
    and the next begins: a transaction whose id is the concatenation of two
    ids can be exchanged for two transactions with these ids, and a
    transaction with the empty id can be dropped, whatever their inputs and
    outputs, without changing the id computed for the block. *)
Theorem calculateBlockId_boundaries h pre post tx tx1 tx2 tx0 :
  t_id tx = String.append (t_id tx1) (t_id tx2) →
  t_id tx0 = "" →
  calculateBlockId h (pre ++ tx :: post) = calculateBlockId h (pre ++ tx1 :: tx2 :: post)
  ∧ calculateBlockId h (pre ++ tx0 :: post) = calculateBlockId h (pre ++ post).
Proof.
  intros Hcat Hempty. unfold calculateBlockId.
  rewrite !fmap_app, !fmap_cons, !concat_empty_app, !concat_empty_cons.
  rewrite Hcat, Hempty, string_app_assoc. done.
Qed.

(** "ab" against "a" and "b"; and a transaction without id. *)
Lemma calculateBlockId_boundaries_witness :
  calculateBlockId 1 [tx_ab] = calculateBlockId 1 [tx_a; tx_b]
  ∧ calculateBlockId 1 [tx_noid] = calculateBlockId 1 [].
Proof.
  apply (calculateBlockId_boundaries 1 [] [] tx_ab tx_a tx_b tx_noid); reflexivity.
Defined.

(** ** Reading back what a block wrote *)

Lemma getUnspentOutput_unique db o :
  NoDup (okey <$> tbl_outputs db) → o ∈ tbl_outputs db → spent o = false →
  getUnspentOutput db (tx_id o) (output_index o) = Some o.
Proof.
  intros Hnd Ho Hs. unfold getUnspentOutput.
  induction (tbl_outputs db) as [|y l IH]; [by apply elem_of_nil in Ho|].
  rewrite fmap_cons in Hnd. apply NoDup_cons in Hnd as [Hy Hnd].
  rewrite filter_cons. apply elem_of_cons in Ho as [->|Ho].
  - by rewrite decide_True.
  - rewrite decide_False; [by apply IH|].
    intros [Hk _]. apply Hy. apply is_output_okey in Hk.
    change (tx_id o, output_index o) with (okey o) in Hk. rewrite Hk.
    by apply list_elem_of_fmap_2.
Qed.

Lemma newRows_lookup txid h outs : ∀ i (j : nat) out,
  outs !! j = Some out →
  mkOutputRecord txid (i + Z.of_nat j) (o_address out) (o_value out) h false None None
  ∈ newRows txid h i outs.
Proof.
  induction outs as [|o rest IH]; intros i j out Hj; [done|].
  destruct j as [|j].
  - injection Hj as ->. rewrite Z.add_0_r. by left.
  - replace (i + Z.of_nat (S j)) with ((i + 1) + Z.of_nat j) by lia.
    right. by apply IH.
Qed.

(** X16. What an accepted block wrote is read back: the current height is
    the height of the block, the block row is found at that height, and
    every output of every transaction of the block is found, unspent, under
    the id of its transaction and its position, with its address, its value
    and the height of the block. *)
Theorem accepted_block_read_back db b db' :
  Reachable db →
  addBlock db b = (Returns None, db') →
  getCurrentHeight db' = height b
  ∧ getBlockByHeight db' (height b) = Some (mkBlockRecord (b_id b) (height b))
  ∧ ∀ tx (j : nat) out,
      tx ∈ transactions b → outputs tx !! j = Some out →
      getUnspentOutput db' (t_id tx) (Z.of_nat j)
      = Some (mkOutputRecord (t_id tx) (Z.of_nat j) (o_address out) (o_value out)
                             (height b) false None None)
      ∧ getOutput db' (t_id tx) (Z.of_nat j)
        = Some (mkOutputRecord (t_id tx) (Z.of_nat j) (o_address out) (o_value out)
                               (height b) false None None).
Proof.
  intros Hreach E.
  pose proof (addBlock_consistent _ _ _ (reachable_consistent _ Hreach) E)
    as (Hnd' & _ & _).
  pose proof (addBlock_run db b) as Hrun. rewrite E in Hrun.
  destruct Hrun as (Hh & _ & _ & _ & _ & _ & Hb & _).
  split; [by apply (getCurrentHeight_accepted db b)|]. split.
  - unfold getBlockByHeight. rewrite Hb, filter_app.
    rewrite (filter_Forall_nil _ (tbl_blocks db)).
    + simpl. rewrite filter_cons. by rewrite decide_True.
    + pose proof (blocks_le_current db) as Hle.
      eapply Forall_impl; [exact Hle|]. intros blk Hblk. simpl in *. lia.
  - intros tx j out Htx Hj.
    set (row := mkOutputRecord (t_id tx) (Z.of_nat j) (o_address out) (o_value out)
                               (height b) false None None).
    assert (Hin : row ∈ tbl_outputs db').
    { rewrite (addBlock_tables _ _ _ E). simpl. apply elem_of_app. right.
      unfold blockRows. apply list_elem_of_bind. exists tx. split; [|done].
      apply (newRows_lookup (t_id tx) (height b) (outputs tx) 0 j out Hj). }
    split.
    + by apply (getUnspentOutput_unique db' row).
    + by apply (getOutput_unique db' row).
Qed.

Lemma accepted_block_read_back_witness :
  getCurrentHeight chain_pair = 1
  ∧ getBlockByHeight chain_pair 1 = Some (mkBlockRecord (b_id block_pair) 1)
  ∧ getUnspentOutput chain_pair "pair" 1
    = Some (mkOutputRecord "pair" 1 "addr2" 40 1 false None None).
Proof.
  destruct (accepted_block_read_back emptyDb block_pair chain_pair)
    as (Hcur & Hblk & Hout).
  - apply reach_empty.
  - concrete.
  - split; [exact Hcur|]. split; [exact Hblk|].
    destruct (Hout tx_pair 1%nat (mkOutput "addr2" 40)) as [Hfound _].
    + by left.
    + reflexivity.
    + exact Hfound.
Defined.

(** ** Reading the block rows *)

#[local] Instance height_asc_trans : Transitive height_asc.
Proof. intros x y z. unfold height_asc. lia. Qed.

#[local] Instance height_asc_total : Total height_asc.
Proof. intros x y. unfold height_asc. lia. Qed.

Lemma Sorted_heights_seq (l : list BlockRecord) : ∀ (k n : nat),
  r_height <$> l = Z.of_nat <$> seq k n → Sorted height_asc l.
Proof.
  induction l as [|x l IH]; intros k n Hs; [constructor|].
  destruct n as [|n]; [done|]. simpl in Hs. injection Hs as Hx Hl.
  constructor; [by apply (IH (S k) n)|].
  destruct l as [|y l]; constructor.
  destruct n as [|n]; [done|]. simpl in Hl. injection Hl as Hy _.
  unfold height_asc. lia.
Qed.

(** X17. In every reachable state [getAllBlocks] returns the block rows as
    they are stored, one for each height from 1 to the current height, in
    this order; and [getBlockByHeight] finds a row exactly at these heights,
    the only one of that height. *)
Theorem reachable_block_reads db :
  Reachable db →
  getAllBlocks db = tbl_blocks db
  ∧ r_height <$> getAllBlocks db = Z.of_nat <$> seq 1 (Z.to_nat (getCurrentHeight db))
  ∧ (∀ h, is_Some (getBlockByHeight db h) ↔ 1 ≤ h ≤ getCurrentHeight db)
  ∧ (∀ h blk, getBlockByHeight db h = Some blk
              ↔ blk ∈ tbl_blocks db ∧ r_height blk = h).
Proof.
  intros Hreach. destruct (reachable_heights db Hreach) as [Hseq Hpos].
  destruct (reachable_schema db Hreach) as (_ & Hnd & _).
  assert (Hall : getAllBlocks db = tbl_blocks db).
  { unfold getAllBlocks. apply (Sorted_unique_strong height_asc).
    - intros x1 x2 H1 H2 Hle1 Hle2.
      apply (NoDup_fmap_inj_on r_height (tbl_blocks db)); [done| |done|].
      + by rewrite <- (merge_sort_Permutation height_asc (tbl_blocks db)).
      + unfold height_asc in *. lia.
    - apply Sorted_merge_sort; apply _.
    - by eapply Sorted_heights_seq.
    - apply merge_sort_Permutation. }
  assert (Hget : ∀ h blk, getBlockByHeight db h = Some blk
                          ↔ blk ∈ tbl_blocks db ∧ r_height blk = h).
  { intros h blk. unfold getBlockByHeight. split.
    - intros H%head_Some_elem_of. apply list_elem_of_filter in H as [? ?]. done.
    - intros [Hin <-]. by apply (head_filter_unique r_height). }
  split; [done|]. split; [by rewrite Hall|]. split; [|done].
  intros h. split.
  - intros [blk Hblk]. apply Hget in Hblk as [Hin <-].
    assert (Hh : r_height blk ∈ r_height <$> tbl_blocks db)
      by by apply list_elem_of_fmap_2.
    rewrite Hseq in Hh. apply list_elem_of_fmap in Hh as (n & -> & Hn%elem_of_seq).
    lia.
  - intros Hh.
    assert (Hin : h ∈ r_height <$> tbl_blocks db).
    { rewrite Hseq. apply list_elem_of_fmap. exists (Z.to_nat h).
      split; [lia|]. apply elem_of_seq. lia. }
    apply list_elem_of_fmap in Hin as (blk & -> & Hin).
    exists blk. by apply Hget.
Qed.

Lemma reachable_block_reads_witness :
  getAllBlocks chain2 = tbl_blocks chain2
  ∧ r_height <$> getAllBlocks chain2 = [1; 2]
  ∧ is_Some (getBlockByHeight chain2 2)
  ∧ ¬ is_Some (getBlockByHeight chain2 3).
Proof.
  destruct (reachable_block_reads chain2) as (Hall & Hseq & Hsome & _).
  { apply reach_addBlock, reach_addBlock, reach_empty. }
  split; [exact Hall|]. split; [exact Hseq|]. split.
  - apply Hsome. vm_compute. split; discriminate.
  - intros H3. apply Hsome in H3. vm_compute in H3. destruct H3 as [_ H3]. by apply H3.
Defined.

(** ** Reading the ledger rows *)

Lemma selected_clean o :
  spent_by_tx o = None → spent_at_height o = None → selected o = o.
Proof. intros Hb Ha. destruct o. simpl in *. by subst. Qed.

(** X18. In every reachable state at most one ledger row has a given
    identity: [getOutput] returns the selected columns of that row when
    there is one and nothing otherwise, and [getUnspentOutput] returns the
    same when the row is unspent and nothing when it is spent or missing. *)
Theorem reachable_output_reads db txid idx :
  Reachable db →
  (∀ o', getOutput db txid idx = Some o'
         ↔ ∃ o, o ∈ tbl_outputs db ∧ okey o = (txid, idx) ∧ o' = selected o)
  ∧ getUnspentOutput db txid idx
    = getOutput db txid idx ≫= λ o, if spent o then None else Some o.
Proof.
  intros Hreach. destruct (reachable_consistent _ Hreach) as (Hnd & _ & Hclean).
  assert (Hget : ∀ o', getOutput db txid idx = Some o'
            ↔ ∃ o, o ∈ tbl_outputs db ∧ okey o = (txid, idx) ∧ o' = selected o).
  { intros o'. split; [apply getOutput_key|].
    intros (o & Hin & [= <- <-] & ->). by apply getOutput_unique. }
  split; [done|].
  destruct (getOutput db txid idx) as [o'|] eqn:Eo; simpl.
  - destruct (proj1 (Hget o') eq_refl) as (o & Hin & [= <- <-] & ->). clear Hget.
    simpl. destruct (spent o) eqn:Es.
    + destruct (getUnspentOutput db (tx_id o) (output_index o)) as [o2|] eqn:Eu; [|done].
      apply getUnspentOutput_key in Eu as (Hin2 & Hk2 & Hs2).
      assert (o2 = o) as -> by by apply (NoDup_fmap_inj_on okey (tbl_outputs db)).
      congruence.
    + rewrite (getUnspentOutput_unique db o Hnd Hin Es). f_equal. symmetry.
      unfold ledger_clean in Hclean. rewrite Forall_forall in Hclean.
      destruct (Hclean o Hin Es). by apply selected_clean.
  - destruct (getUnspentOutput db txid idx) as [o2|] eqn:Eu; [|done].
    apply getUnspentOutput_key in Eu as (Hin2 & Hk2 & _).
    assert (None = Some (selected o2)) as [=]. apply Hget. by exists o2.
Qed.

(** tx1:0 is in the ledger of the chain of two blocks, spent. *)
Lemma reachable_output_reads_witness :
  getUnspentOutput chain2 "tx1" 0
  = getOutput chain2 "tx1" 0 ≫= (λ o, if spent o then None else Some o)
  ∧ getUnspentOutput chain2 "tx1" 0 = None
  ∧ is_Some (getOutput chain2 "tx1" 0).
Proof.
  destruct (reachable_output_reads chain2 "tx1" 0) as [_ Heq].
  { apply reach_addBlock, reach_addBlock, reach_empty. }
  split; [exact Heq|]. split; [concrete|]. vm_compute. by eexists.
Defined.

(** ** The rows of one transaction id *)

Lemma filter_fmap_comm {A} (P : A → Prop) `{∀ x, Decision (P x)} (f : A → A)
    (l : list A) :
  (∀ x, P (f x) ↔ P x) → filter P (f <$> l) = f <$> filter P l.
Proof.
  intros Hf. induction l as [|x l IH]; [done|].
  rewrite fmap_cons, !filter_cons. destruct (decide (P x)) as [HP|HP].
  - rewrite decide_True by by apply Hf. by rewrite fmap_cons, IH.
  - rewrite decide_False by by rewrite Hf. done.
Qed.

Lemma txRows_app txid l1 l2 : txRows txid (l1 ++ l2) = txRows txid l1 ++ txRows txid l2.
Proof. apply filter_app. Qed.

Lemma txRows_newRows txid t h outs : ∀ i,
  txRows txid (newRows t h i outs) = if decide (t = txid) then newRows t h i outs else [].
Proof.
  unfold txRows. induction outs as [|o rest IH]; intros i; simpl.
  - by case_decide.
  - rewrite filter_cons, IH. simpl. by case_decide.
Qed.

Lemma newRows_index txid h outs : ∀ i (j : nat) o,
  newRows txid h i outs !! j = Some o → output_index o = i + Z.of_nat j.
Proof.
  induction outs as [|x rest IH]; intros i j o Hj; [done|].
  destruct j as [|j].
  - injection Hj as <-. simpl. lia.
  - apply IH in Hj. lia.
Qed.

Lemma numbered_first txid rows :
  numbered rows → txRows txid rows ≠ [] → (txid, 0) ∈ okey <$> rows.
Proof.
  intros Hn Hne. destruct (txRows txid rows) as [|o l] eqn:E; [done|].
  assert (Hin : o ∈ txRows txid rows) by (rewrite E; by left).
  apply list_elem_of_filter in Hin as [Ht Hin].
  apply list_elem_of_fmap. exists o. split; [|done].
  unfold okey. rewrite Ht, (Hn txid 0%nat o); [done|]. by rewrite E.
Qed.

Lemma okeys_blockRows h txs : okey <$> blockRows h txs = blockKeys txs.
Proof.
  unfold blockRows, blockKeys, txKeys. induction txs as [|tx rest IH]; [done|].
  by rewrite !bind_cons, fmap_app, IH, okeys_newRows.
Qed.

Lemma numbered_blockRows h txs : NoDup (blockKeys txs) → numbered (blockRows h txs).
Proof.
  induction txs as [|tx rest IH]; intros Hnd txid j o; [done|].
  unfold blockKeys in Hnd. rewrite bind_cons in Hnd.
  apply NoDup_app in Hnd as (_ & Hdisj & Hnd). specialize (IH Hnd).
  unfold blockRows. rewrite bind_cons. fold (blockRows h rest).
  rewrite txRows_app, txRows_newRows. case_decide as Ht; [|by apply IH].
  destruct (outputs tx) as [|x outs] eqn:Eo; [by apply IH|].
  assert (Hnone : txRows txid (blockRows h rest) = []).
  { destruct (decide (txRows txid (blockRows h rest) = [])) as [|Hne]; [done|].
    apply (numbered_first _ _ IH) in Hne. rewrite okeys_blockRows in Hne.
    destruct (Hdisj (txid, 0)); [|done].
    unfold txKeys. rewrite Eo, Ht. by left. }
  rewrite Hnone, app_nil_r. intros Hj. apply newRows_index in Hj. lia.
Qed.

Lemma apply_marks_columns h ms o :
  tx_id (apply_marks h ms o) = tx_id o
  ∧ output_index (apply_marks h ms o) = output_index o
  ∧ block_height (apply_marks h ms o) = block_height o.
Proof.
  destruct (apply_marks_cases h ms o) as [[_ ->]|[_ [t ->]]]; done.
Qed.

Lemma unspend_above_columns t o :
  tx_id (unspend_above t o) = tx_id o
  ∧ output_index (unspend_above t o) = output_index o
  ∧ block_height (unspend_above t o) = block_height o.
Proof. unfold unspend_above. destruct (spent_at_height o); [case_decide|]; done. Qed.

Lemma filter_all_or_none {A} (P : A → Prop) `{∀ x, Decision (P x)} (l : list A) :
  (∀ x y, x ∈ l → y ∈ l → P x → P y) → filter P l = l ∨ filter P l = [].
Proof.
  intros Hsame. destruct (decide (Exists P l)) as [Hex|Hno].
  - left. apply filter_Forall_id. apply Forall_forall. intros y Hy.
    apply Exists_exists in Hex as (x & Hx & HP). by apply (Hsame x y).
  - right. apply filter_Forall_nil. by apply Forall_Exists_neg.
Qed.

Lemma reachable_tx_rows db :
  Reachable db → numbered (tbl_outputs db) ∧ one_block (tbl_outputs db).
Proof.
  induction 1 as [|db b db' Hreach [IHn IHo] E|db t Hreach [IHn IHo] Ht]
    using Reachable_cases; simpl.
  - split; [by intros txid j o|by intros o1 o2 ?%elem_of_nil].
  - pose proof (addBlock_run db b) as Hrun. rewrite E in Hrun.
    destruct Hrun as (_ & _ & _ & _ & Hfresh & Hnd & _).
    rewrite (addBlock_tables _ _ _ E). simpl.
    set (f := apply_marks (height b) (blockMarks (transactions b))).
    pose proof (numbered_blockRows (height b) _ Hnd) as Hnew.
    assert (Hold : ∀ txid, txRows txid (f <$> tbl_outputs db)
                           = f <$> txRows txid (tbl_outputs db)).
    { intros txid. apply filter_fmap_comm. intros o. unfold f.
      by destruct (apply_marks_columns (height b) (blockMarks (transactions b)) o) as [-> _]. }
    assert (Hexcl : ∀ txid, txRows txid (tbl_outputs db) ≠ [] →
                            txRows txid (blockRows (height b) (transactions b)) = []).
    { intros txid Hne.
      destruct (decide (txRows txid (blockRows (height b) (transactions b)) = []))
        as [|Hne']; [done|].
      apply (numbered_first _ _ IHn) in Hne.
      apply (numbered_first _ _ Hnew) in Hne'. rewrite okeys_blockRows in Hne'.
      rewrite Forall_forall in Hfresh. by destruct (Hfresh _ Hne'). }
    split.
    + intros txid j o. rewrite txRows_app, Hold.
      destruct (decide (txRows txid (tbl_outputs db) = [])) as [Hnil|Hne].
      * rewrite Hnil. simpl. apply Hnew.
      * rewrite (Hexcl txid Hne), app_nil_r, list_lookup_fmap.
        destruct (txRows txid (tbl_outputs db) !! j) as [o0|] eqn:Ej; [|done].
        intros [= <-]. unfold f.
        destruct (apply_marks_columns (height b) (blockMarks (transactions b)) o0)
          as (_ & -> & _). by apply (IHn txid).
    + assert (Hh : ∀ o, o ∈ blockRows (height b) (transactions b) →
                        block_height o = height b).
      { apply Forall_forall. by apply Forall_blockRows. }
      assert (Hmix : ∀ o0 o2, o0 ∈ tbl_outputs db →
                 o2 ∈ blockRows (height b) (transactions b) →
                 tx_id o0 = tx_id o2 → False).
      { intros o0 o2 H0 H2 Heq.
        assert (Hne : txRows (tx_id o0) (tbl_outputs db) ≠ []).
        { intros Hnil. assert (Hin : o0 ∈ txRows (tx_id o0) (tbl_outputs db))
            by by apply list_elem_of_filter.
          rewrite Hnil in Hin. by apply elem_of_nil in Hin. }
        apply Hexcl in Hne.
        assert (Hin : o2 ∈ txRows (tx_id o0) (blockRows (height b) (transactions b)))
          by by apply list_elem_of_filter.
        rewrite Hne in Hin. by apply elem_of_nil in Hin. }
      intros o1 o2 [H1|H1]%elem_of_app [H2|H2]%elem_of_app Heq.
      * apply list_elem_of_fmap in H1 as (x1 & -> & H1).
        apply list_elem_of_fmap in H2 as (x2 & -> & H2). unfold f in *.
        destruct (apply_marks_columns (height b) (blockMarks (transactions b)) x1)
          as (Ht1 & _ & ->).
        destruct (apply_marks_columns (height b) (blockMarks (transactions b)) x2)
          as (Ht2 & _ & ->).
        apply IHo; [done..|]. by rewrite <- Ht1, <- Ht2.
      * apply list_elem_of_fmap in H1 as (x1 & -> & H1). unfold f in *.
        destruct (apply_marks_columns (height b) (blockMarks (transactions b)) x1)
          as (Ht1 & _ & _).
        destruct (Hmix x1 o2 H1 H2). by rewrite <- Ht1.
      * apply list_elem_of_fmap in H2 as (x2 & -> & H2). unfold f in *.
        destruct (apply_marks_columns (height b) (blockMarks (transactions b)) x2)
          as (Ht2 & _ & _).
        destruct (Hmix x2 o1 H2 H1). by rewrite <- Ht2.
      * by rewrite (Hh o1 H1), (Hh o2 H2).
  - assert (Hrows : ∀ txid,
        txRows txid (rolledBackOutputs t (tbl_outputs db))
        = filter (λ o, ¬ t < block_height o)
                 (unspend_above t <$> txRows txid (tbl_outputs db))).
    { intros txid. unfold txRows, rolledBackOutputs.
      rewrite list_filter_filter.
      rewrite <- (filter_fmap_comm (λ o, tx_id o = txid) (unspend_above t)).
      - rewrite list_filter_filter. apply filter_ext_elem. intros x _. tauto.
      - intros o. by destruct (unspend_above_columns t o) as [-> _]. }
    split.
    + intros txid j o. rewrite Hrows.
      destruct (filter_all_or_none (λ o, ¬ t < block_height o)
                  (unspend_above t <$> txRows txid (tbl_outputs db))) as [->| ->];
        [| |done].
      * intros x y [x0 [-> Hx]]%list_elem_of_fmap [y0 [-> Hy]]%list_elem_of_fmap.
        rewrite !block_height_unspend_above.
        apply list_elem_of_filter in Hx as [Htx Hx].
        apply list_elem_of_filter in Hy as [Hty Hy].
        by rewrite (IHo x0 y0 Hx Hy) by congruence.
      * rewrite list_lookup_fmap.
        destruct (txRows txid (tbl_outputs db) !! j) as [o0|] eqn:Ej; [|done].
        intros [= <-]. destruct (unspend_above_columns t o0) as (_ & -> & _).
        by apply (IHn txid).
    + intros o1 o2 [_ (x1 & H1 & ->)]%elem_of_rolledBack
        [_ (x2 & H2 & ->)]%elem_of_rolledBack Heq.
      destruct (unspend_above_columns t x1) as (Ht1 & _ & ->).
      destruct (unspend_above_columns t x2) as (Ht2 & _ & ->).
      apply IHo; [done..|]. by rewrite <- Ht1, <- Ht2.
Qed.

#[local] Instance index_asc_trans : Transitive index_asc.
Proof. intros x y z. unfold index_asc. lia. Qed.

#[local] Instance index_asc_total : Total index_asc.
Proof. intros x y. unfold index_asc. lia. Qed.

Lemma Sorted_numbered (l : list OutputRecord) : ∀ k,
  (∀ (j : nat) o, l !! j = Some o → output_index o = k + Z.of_nat j) →
  Sorted index_asc l.
Proof.
  induction l as [|x l IH]; intros k Hl; [constructor|].
  constructor.
  - apply (IH (k + 1)). intros j o Hj. rewrite (Hl (S j) o Hj). lia.
  - destruct l as [|y l]; constructor. unfold index_asc.
    rewrite (Hl 0%nat x eq_refl), (Hl 1%nat y eq_refl). lia.
Qed.

(** X19. In every reachable state the ledger rows of one transaction id
    are numbered 0, 1, 2, ... without gap and were created by one block:
    [getOutputsByTxId] returns their selected columns in the order they are
    stored, the row at position [j] having output index [j]. *)
Theorem reachable_outputs_by_tx db txid :
  Reachable db →
  getOutputsByTxId db txid = selected <$> txRows txid (tbl_outputs db)
  ∧ (∀ (j : nat) o, getOutputsByTxId db txid !! j = Some o →
                    tx_id o = txid ∧ output_index o = Z.of_nat j)
  ∧ (∀ o1 o2, o1 ∈ getOutputsByTxId db txid → o2 ∈ getOutputsByTxId db txid →
              block_height o1 = block_height o2).
Proof.
  intros Hreach. destruct (reachable_tx_rows db Hreach) as [Hnum Hone].
  destruct (reachable_consistent _ Hreach) as (Hnd & _ & _).
  assert (Heq : getOutputsByTxId db txid = selected <$> txRows txid (tbl_outputs db)).
  { unfold getOutputsByTxId. fold (txRows txid (tbl_outputs db)).
    apply (Sorted_unique_strong index_asc).
    - intros x1 x2 H1 H2 Hle1 Hle2.
      rewrite (merge_sort_Permutation index_asc) in H1.
      apply list_elem_of_fmap in H1 as (y1 & -> & H1).
      apply list_elem_of_fmap in H2 as (y2 & -> & H2).
      apply list_elem_of_filter in H1 as [Ht1 H1].
      apply list_elem_of_filter in H2 as [Ht2 H2].
      f_equal. apply (NoDup_fmap_inj_on okey (tbl_outputs db)); [done..|].
      unfold okey, index_asc in *. simpl in *. f_equal; [congruence|lia].
    - apply Sorted_merge_sort; apply _.
    - apply (Sorted_numbered _ 0). intros j o Hj.
      rewrite list_lookup_fmap in Hj.
      destruct (txRows txid (tbl_outputs db) !! j) as [y|] eqn:Ey; [|done].
      injection Hj as <-. simpl. rewrite (Hnum txid j y Ey). lia.
    - apply merge_sort_Permutation. }
  rewrite Heq. split; [done|]. split.
  - intros j o Hj. rewrite list_lookup_fmap in Hj.
    destruct (txRows txid (tbl_outputs db) !! j) as [y|] eqn:Ey; [|done].
    injection Hj as <-. simpl. split; [|by apply (Hnum txid)].
    apply list_elem_of_lookup_2, list_elem_of_filter in Ey as [? _]. done.
  - intros o1 o2 (y1 & -> & [Ht1 H1]%list_elem_of_filter)%list_elem_of_fmap
      (y2 & -> & [Ht2 H2]%list_elem_of_filter)%list_elem_of_fmap.
    simpl. apply Hone; [done..|congruence].
Qed.

Lemma reachable_outputs_by_tx_witness :
  getOutputsByTxId chain_pair "pair"
  = selected <$> txRows "pair" (tbl_outputs chain_pair)
  ∧ output_index <$> getOutputsByTxId chain_pair "pair" = [0; 1].
Proof.
  destruct (reachable_outputs_by_tx chain_pair "pair") as (Heq & _).
  { apply reach_addBlock, reach_empty. }
  split; [exact Heq|]. concrete.
Defined.

(** ** Rows above a height *)

#[local] Instance height_desc_total : Total height_desc.
Proof. intros x y. unfold height_desc. lia. Qed.

Lemma okeys_rolledBack_filter t l :
  okey <$> rolledBackOutputs t l = okey <$> filter (λ o, ¬ t < block_height o) l.
Proof.
  unfold rolledBackOutputs.
  rewrite (filter_fmap_comm (λ o, ¬ t < block_height o) (unspend_above t)).
  - rewrite <- list_fmap_compose. apply list_fmap_ext. intros i o _. simpl.
    unfold okey. by destruct (unspend_above_columns t o) as (-> & -> & _).
  - intros o. by rewrite block_height_unspend_above.
Qed.

(** X20. [getOutputsAboveHeight] returns the selected columns of the
    ledger rows created above the given height, highest first. They are
    the rows [deleteOutputsAboveHeight] deletes, and the rows a rollback to
    that height removes from the ledger; in a reachable state there is none
    above the current height. *)
Theorem outputs_above_height db h :
  (∀ o', o' ∈ getOutputsAboveHeight db h
         ↔ ∃ o, o ∈ tbl_outputs db ∧ h < block_height o ∧ o' = selected o)
  ∧ Sorted height_desc (getOutputsAboveHeight db h)
  ∧ (∃ w', deleteOutputsAboveHeight h db db = inr (tt, w')
           ∧ getOutputsAboveHeight db h ++ (selected <$> tbl_outputs w')
             ≡ₚ selected <$> tbl_outputs db
           ∧ getOutputsAboveHeight w' h = [])
  ∧ (h ≤ getCurrentHeight db →
     (okey <$> getOutputsAboveHeight db h) ++ (okey <$> tbl_outputs (snd (rollback db h)))
     ≡ₚ okey <$> tbl_outputs db)
  ∧ (Reachable db → getCurrentHeight db ≤ h → getOutputsAboveHeight db h = []).
Proof.
  assert (Hperm : getOutputsAboveHeight db h
                  ≡ₚ selected <$> filter (λ o, h < block_height o) (tbl_outputs db))
    by apply merge_sort_Permutation.
  split; [|split; [|split; [|split]]].
  - intros o'. rewrite Hperm, list_elem_of_fmap. split.
    + intros (o & -> & [Hh Hin]%list_elem_of_filter). by exists o.
    + intros (o & Hin & Hh & ->). exists o. split; [done|].
      by apply list_elem_of_filter.
  - apply Sorted_merge_sort; apply _.
  - eexists. split; [reflexivity|]. simpl. split.
    + rewrite Hperm, <- fmap_app. apply fmap_Permutation, filter_app_complement.
    + unfold getOutputsAboveHeight. simpl.
      rewrite (filter_Forall_nil (λ o, h < block_height o)); [done|].
      apply Forall_forall. by intros o [? _]%list_elem_of_filter.
  - intros Hle. rewrite rollback_run, decide_False by lia. simpl.
    rewrite okeys_rolledBack_filter, Hperm, <- list_fmap_compose.
    rewrite (list_fmap_ext (okey ∘ selected) okey
               (filter (λ o, h < block_height o) (tbl_outputs db)))
      by (by intros ? [] ?).
    rewrite <- fmap_app. apply fmap_Permutation, filter_app_complement.
  - intros Hreach Hle. destruct (reachable_consistent _ Hreach) as (_ & Hw & _).
    unfold getOutputsAboveHeight.
    rewrite (filter_Forall_nil (λ o, h < block_height o)); [done|].
    eapply Forall_impl; [exact Hw|]. intros o [Ho _]. simpl in *. lia.
Qed.

(** Above height 1 the chain of two blocks holds the outputs of tx2. *)
Lemma outputs_above_height_witness :
  (okey <$> getOutputsAboveHeight chain2 1)
  ++ (okey <$> tbl_outputs (snd (rollback chain2 1)))
  ≡ₚ okey <$> tbl_outputs chain2
  ∧ okey <$> getOutputsAboveHeight chain2 1 = [("tx2", 0); ("tx2", 1)]
  ∧ getOutputsAboveHeight chain2 2 = [].
Proof.
  destruct (outputs_above_height chain2 1) as (_ & _ & _ & Hperm & _).
  destruct (outputs_above_height chain2 2) as (_ & _ & _ & _ & Hnone).
  split; [|split; [concrete|]].
  - apply Hperm. vm_compute. discriminate.
  - apply Hnone.
    + apply reach_addBlock, reach_addBlock, reach_empty.
    + vm_compute. discriminate.
Defined.

(** ** Resetting the spent flag by transaction id *)

Lemma okeys_unmark (f : OutputRecord → Prop) `{∀ o, Decision (f o)}
    (l : list OutputRecord) :
  okey <$> ((λ o, if decide (f o) then unmark o else o) <$> l) = okey <$> l.
Proof.
  rewrite <- list_fmap_compose. apply list_fmap_ext. intros i o _. simpl.
  by case_decide.
Qed.

(** X21. [unmarkOutputsAsSpentByTxIds] does nothing for the empty list;
    otherwise it clears the spent flag of the rows created by the listed
    transactions and leaves the columns that record the spend, and the
    balances, as they are. So after [markOutputAsSpent], calling it with the
    id of the transaction that created the row makes the row found unspent
    again, while the ledger still records the spending transaction and
    height. *)
Theorem unmark_keeps_spend_columns :
  (∀ c w, unmarkOutputsAsSpentByTxIds [] c w = inr (tt, w))
  ∧ (∀ txIds c w, ∃ w',
       unmarkOutputsAsSpentByTxIds txIds c w = inr (tt, w')
       ∧ tbl_blocks w' = tbl_blocks w ∧ tbl_balances w' = tbl_balances w
       ∧ okey <$> tbl_outputs w' = okey <$> tbl_outputs w
       ∧ spent_by_tx <$> tbl_outputs w' = spent_by_tx <$> tbl_outputs w
       ∧ spent_at_height <$> tbl_outputs w' = spent_at_height <$> tbl_outputs w
       ∧ Forall (λ o, tx_id o ∈ txIds → spent o = false) (tbl_outputs w'))
  ∧ (∀ c w o by_tx h,
       NoDup (okey <$> tbl_outputs w) → o ∈ tbl_outputs w →
       ∃ w1 w2,
         markOutputAsSpent (tx_id o) (output_index o) by_tx h c w = inr (tt, w1)
         ∧ unmarkOutputsAsSpentByTxIds [tx_id o] c w1 = inr (tt, w2)
         ∧ (selected <$> getUnspentOutput w2 (tx_id o) (output_index o)
            = Some (mkOutputRecord (tx_id o) (output_index o) (address o) (value o)
                                   (block_height o) false None None))
         ∧ mkOutputRecord (tx_id o) (output_index o) (address o) (value o)
                          (block_height o) false (Some by_tx) (Some h)
           ∈ tbl_outputs w2
         ∧ tbl_balances w2 = tbl_balances w).
Proof.
  split; [done|]. split.
  - intros txIds c w. unfold unmarkOutputsAsSpentByTxIds.
    case_decide as Hlen.
    + exists w. repeat split; try done.
      destruct txIds; [|done]. apply Forall_forall. by intros o _ ?%elem_of_nil.
    + eexists. split; [reflexivity|]. simpl. repeat split.
      * apply (okeys_unmark (λ o, tx_id o ∈ txIds)).
      * rewrite <- list_fmap_compose. apply list_fmap_ext. intros i o _. simpl.
        by case_decide.
      * rewrite <- list_fmap_compose. apply list_fmap_ext. intros i o _. simpl.
        by case_decide.
      * apply Forall_fmap, Forall_forall. intros o _. simpl.
        case_decide; [done|]. intros; done.
  - intros c w o by_tx h Hnd Ho. eexists. eexists.
    split; [reflexivity|]. split; [reflexivity|]. simpl.
    set (row := mkOutputRecord (tx_id o) (output_index o) (address o) (value o)
                               (block_height o) false (Some by_tx) (Some h)).
    assert (Hrow : row ∈ (λ x, if decide (tx_id x ∈ [tx_id o]) then unmark x else x)
                         <$> (mark_spent (tx_id o) (output_index o) by_tx h
                              <$> tbl_outputs w)).
    { apply list_elem_of_fmap.
      exists (apply_mark h o (tx_id o, output_index o, by_tx)). split.
      - rewrite (apply_mark_hit h (tx_id o, output_index o, by_tx) o)
          by (by apply is_output_okey).
        simpl. rewrite decide_True by by left. done.
      - apply list_elem_of_fmap. by exists o. }
    split; [|done].
    rewrite (getUnspentOutput_unique _ row); [done| |done|done].
    simpl. by rewrite (okeys_unmark (λ x, tx_id x ∈ [tx_id o])), okeys_mark_spent.
Qed.

(** tx1:0 marked spent by "tx2" at height 2, then unmarked through the id
    "tx1" of the transaction that created it. *)
Lemma unmark_keeps_spend_columns_witness :
  ∃ w1 w2,
    markOutputAsSpent "tx1" 0 "tx2" 2 chain1 chain1 = inr (tt, w1)
    ∧ unmarkOutputsAsSpentByTxIds ["tx1"] chain1 w1 = inr (tt, w2)
    ∧ (selected <$> getUnspentOutput w2 "tx1" 0
       = Some (mkOutputRecord "tx1" 0 "addr1" 100 1 false None None))
    ∧ mkOutputRecord "tx1" 0 "addr1" 100 1 false (Some "tx2") (Some 2)
      ∈ tbl_outputs w2
    ∧ tbl_balances w2 = tbl_balances chain1.
Proof.
  destruct unmark_keeps_spend_columns as (_ & _ & Hround).
  apply (Hround chain1 chain1 (mkOutputRecord "tx1" 0 "addr1" 100 1 false None None)
                "tx2" 2).
  - vm_compute. apply NoDup_singleton.
  - vm_compute. by left.
Defined.

(** ** Writing and reading balances *)

(** X22. A balance written is the balance read: after [setBalance] the
    address reads the value set, after [deleteBalance] it reads 0, after
    [updateBalance] it reads what it read before plus the change, an
    address without a row counting as 0; the other addresses read what
    they read before. *)
Theorem balance_write_then_read c w addr v :
  (∃ w', setBalance addr v c w = inr (tt, w')
         ∧ ∀ a, getBalance w' a = if decide (a = addr) then v else getBalance w a)
  ∧ (∃ w', deleteBalance addr c w = inr (tt, w')
           ∧ ∀ a, getBalance w' a = if decide (a = addr) then 0 else getBalance w a)
  ∧ (∃ w', updateBalance addr v c w = inr (tt, w')
           ∧ ∀ a, getBalance w' a
                  = getBalance w a + (if decide (a = addr) then v else 0)).
Proof.
  split; [|split]; (eexists; split; [reflexivity|]); intros a;
    unfold getBalance; simpl; rewrite !js_or_default.
  - case_decide as Ha.
    + subst a. by rewrite lookup_insert_eq.
    + by rewrite lookup_insert_ne.
  - case_decide as Ha.
    + subst a. by rewrite lookup_delete_eq.
    + by rewrite lookup_delete_ne.
  - rewrite upsert_lookup. by repeat case_decide.
Qed.

Lemma upsert_insert a d (m : gmap string Z) :
  upsert a d m = <[a := default 0 (m !! a) + d]> m.
Proof. unfold upsert. by destruct (m !! a). Qed.

Lemma upsert_comm a1 d1 a2 d2 (m : gmap string Z) :
  upsert a2 d2 (upsert a1 d1 m) = upsert a1 d1 (upsert a2 d2 m).
Proof.
  rewrite !upsert_insert. destruct (decide (a1 = a2)) as [->|Hne].
  - rewrite !lookup_insert_eq, !insert_insert_eq. simpl. f_equal. lia.
  - rewrite !lookup_insert_ne by done. by apply insert_insert_ne.
Qed.

Lemma upsert_add a d1 d2 (m : gmap string Z) :
  upsert a d2 (upsert a d1 m) = upsert a (d1 + d2) m.
Proof.
  rewrite !upsert_insert, lookup_insert_eq, insert_insert_eq. simpl. f_equal. lia.
Qed.

(** X23. Two calls of [updateBalance] leave the same table of balances in
    either order, and two changes to one address leave the table that the
    sum of the changes leaves. A change that brings a balance back to 0
    keeps the row. *)
Theorem updateBalance_composes c w a1 d1 a2 d2 :
  (_ ← updateBalance a1 d1; updateBalance a2 d2) c w
  = (_ ← updateBalance a2 d2; updateBalance a1 d1) c w
  ∧ (_ ← updateBalance a1 d1; updateBalance a1 d2) c w
    = updateBalance a1 (d1 + d2) c w
  ∧ ∃ w', (_ ← updateBalance a1 d1; updateBalance a1 (- d1)) c w = inr (tt, w')
          ∧ is_Some (tbl_balances w' !! a1)
          ∧ ∀ a, getBalance w' a = getBalance w a.
Proof.
  split; [|split].
  - sql_unfold. do 2 f_equal. unfold set_balances.
    cbn [tbl_blocks tbl_outputs tbl_balances]. f_equal. apply upsert_comm.
  - sql_unfold. do 2 f_equal. unfold set_balances.
    cbn [tbl_blocks tbl_outputs tbl_balances]. f_equal. apply upsert_add.
  - sql_unfold. eexists. split; [reflexivity|].
    unfold set_balances, getBalance. cbn [tbl_blocks tbl_outputs tbl_balances].
    split.
    + rewrite upsert_insert, lookup_insert_eq. by eexists.
    + intros a. rewrite !js_or_default, !upsert_lookup. case_decide; lia.
Qed.

(** ** The routes *)

Ltac in_list := solve [repeat first [by left | right]].

(** X24. [POST /blocks] answers 200, 400 or 500. It answers 200 exactly
    when the body is a block with a non-empty id and a height other than 0
    that [addBlock] accepts, and the tables are then those [addBlock]
    leaves; with any other answer the tables are untouched. It answers 500
    exactly when [addBlock] throws. A block of height 0 is answered
    "Invalid block format" without reaching the service. In a reachable
    state the format check refuses no block the service would accept. *)
Theorem postBlocks_replies db reqBody :
  status (fst (postBlocks db reqBody)) ∈ [200; 400; 500]
  ∧ (status (fst (postBlocks db reqBody)) = 200
     ↔ ∃ b, reqBody = Some b ∧ b_id b ≠ "" ∧ height b ≠ 0
            ∧ fst (addBlock db b) = Returns None)
  ∧ (∀ b, reqBody = Some b → status (fst (postBlocks db reqBody)) = 200 →
          postBlocks db reqBody = (mkReply 200 SuccessBody, snd (addBlock db b)))
  ∧ (status (fst (postBlocks db reqBody)) ≠ 200 → snd (postBlocks db reqBody) = db)
  ∧ (status (fst (postBlocks db reqBody)) = 500
     ↔ ∃ b e, reqBody = Some b ∧ b_id b ≠ "" ∧ height b ≠ 0
              ∧ fst (addBlock db b) = Throws e)
  ∧ (∀ b, reqBody = Some b → height b = 0 →
          postBlocks db reqBody = (mkReply 400 (ErrorText "Invalid block format"), db))
  ∧ (Reachable db → ∀ b, reqBody = Some b →
       (status (fst (postBlocks db reqBody)) = 200
        ↔ fst (addBlock db b) = Returns None)).
Proof.
  assert (Hfmt : ∀ b, Reachable db → fst (addBlock db b) = Returns None →
                      ¬ (b_id b = "" ∨ height b = 0)).
  { intros b Hreach Hacc. pose proof (addBlock_run db b) as Hrun.
    destruct (addBlock db b) as [r db']. simpl in Hacc. subst r.
    destruct Hrun as (Hh & Hid & _).
    destruct (reachable_heights db Hreach) as [_ Hpos].
    intros [Hempty|Hzero]; [|lia].
    pose proof (hex_format (String.append (string_of_Z (height b))
                  (String.concat "" (t_id <$> transactions b)))) as [Hlen _].
    unfold calculateBlockId in Hid. rewrite <- Hid, Hempty in Hlen. done. }
  unfold postBlocks. destruct reqBody as [b|]; simpl.
  2:{ split; [in_list|]. split; [split; [done|by intros (b & [=] & _)]|].
      split; [done|]. split; [done|].
      split; [split; [done|by intros (b & e & [=] & _)]|].
      split; [done|]. done. }
  case_decide as Hbad; simpl.
  { split; [in_list|].
    split; [split; [done|intros (b' & [= <-] & ? & ? & _); tauto]|].
    split; [done|]. split; [done|].
    split; [split; [done|intros (b' & e & [= <-] & ? & ? & _); tauto]|].
    split; [done|]. intros Hreach b' [= <-]. split; [done|].
    intros Hacc. by destruct (Hfmt b Hreach Hacc). }
  pose proof (addBlock_run db b) as Hrun.
  destruct (addBlock db b) as [[[e|]|e] db'] eqn:E; simpl.
  - destruct Hrun as [-> _]. split; [in_list|].
    split; [split; [done|intros (b' & [= <-] & _ & _ & Hacc); by rewrite E in Hacc]|].
    split; [done|]. split; [done|].
    split; [split; [done|intros (b' & e' & [= <-] & _ & _ & Hacc); by rewrite E in Hacc]|].
    split; [intros b' [= <-] Hz; tauto|].
    intros _ b' [= <-]. rewrite E. done.
  - split; [in_list|].
    split; [split; [intros _; exists b; rewrite E; tauto|done]|].
    split; [intros b' [= <-] _; by rewrite E|]. split; [done|].
    split; [split; [done|intros (b' & e' & [= <-] & _ & _ & Hacc); by rewrite E in Hacc]|].
    split; [intros b' [= <-] Hz; tauto|].
    intros _ b' [= <-]. rewrite E. done.
  - destruct Hrun as [-> _]. split; [in_list|].
    split; [split; [done|intros (b' & [= <-] & _ & _ & Hacc); by rewrite E in Hacc]|].
    split; [done|]. split; [done|].
    split; [split; [intros _; exists b, e; rewrite E; tauto|done]|].
    split; [intros b' [= <-] Hz; tauto|].
    intros _ b' [= <-]. rewrite E. done.
Qed.

(** Block 2 posted on the chain of one block; a block of height 0. *)
Lemma postBlocks_replies_witness :
  postBlocks chain1 (Some block2) = (mkReply 200 SuccessBody, chain2)
  ∧ postBlocks chain1 (Some (mkBlock "id" 0 []))
    = (mkReply 400 (ErrorText "Invalid block format"), chain1)
  ∧ snd (postBlocks chain1 (Some block3)) = chain1.
Proof.
  split; [|split].
  - destruct (postBlocks_replies chain1 (Some block2)) as (_ & _ & Hok & _).
    apply (Hok block2); [reflexivity|concrete].
  - destruct (postBlocks_replies chain1 (Some (mkBlock "id" 0 [])))
      as (_ & _ & _ & _ & _ & Hzero & _).
    apply (Hzero (mkBlock "id" 0 [])); reflexivity.
  - destruct (postBlocks_replies chain1 (Some block3)) as (_ & _ & _ & Hkeep & _).
    apply Hkeep. vm_compute. discriminate.
Defined.

(** X25. [POST /rollback] answers 200 or 400, never 500, whatever
    [parseInt] makes of the parameter. It answers 200 exactly when the
    parameter is a non-empty string that parses to a height from 0 to the
    current height; the tables are then those [rollback] leaves for that
    height, the height is sent back, and in a reachable state it is the new
    current height. With any other answer the tables are untouched. *)
Theorem postRollback_replies (parseInt : string → option Z) db heightParam :
  status (fst (postRollback parseInt db heightParam)) ∈ [200; 400]
  ∧ (status (fst (postRollback parseInt db heightParam)) = 200
     ↔ ∃ s t, heightParam = Some s ∧ s ≠ "" ∧ parseInt s = Some t
              ∧ 0 ≤ t ≤ getCurrentHeight db)
  ∧ (∀ s t, heightParam = Some s → parseInt s = Some t →
            status (fst (postRollback parseInt db heightParam)) = 200 →
            postRollback parseInt db heightParam
            = (mkReply 200 (RollbackBody t), snd (rollback db t))
            ∧ (Reachable db →
               getCurrentHeight (snd (postRollback parseInt db heightParam)) = t))
  ∧ (status (fst (postRollback parseInt db heightParam)) ≠ 200 →
     snd (postRollback parseInt db heightParam) = db).
Proof.
  unfold postRollback. destruct heightParam as [s|]; simpl.
  2:{ split; [in_list|]. split; [split; [done|by intros (s & t & [=] & _)]|].
      split; done. }
  case_decide as Hs; simpl.
  { split; [in_list|].
    split; [split; [done|by intros (s' & t & [= <-] & ? & _)]|]. split; done. }
  destruct (parseInt s) as [t|] eqn:Ep; simpl.
  2:{ split; [in_list|].
      split; [split; [done|intros (s' & t & [= <-] & _ & Hp & _); congruence]|].
      split; done. }
  case_decide as Hneg; simpl.
  { split; [in_list|].
    split; [split; [done|intros (s' & t' & [= <-] & _ & Hp & Ht); simplify_eq; lia]|].
    split; done. }
  rewrite rollback_run. case_decide as Habove; simpl.
  - split; [in_list|].
    split; [split; [done|intros (s' & t' & [= <-] & _ & Hp & Ht); simplify_eq; lia]|].
    split; done.
  - split; [in_list|].
    split; [split; [intros _; exists s, t; repeat split; (done || lia)|done]|].
    split; [|done]. intros s' t' [= <-] Hp _. simplify_eq.
    rewrite rollback_run, decide_False by done. split; [done|].
    intros Hreach.
    pose proof (height_after_rollback db t Hreach ltac:(lia)) as Hcur.
    rewrite rollback_run, decide_False in Hcur by done. simpl in Hcur. lia.
Qed.

(** From height 2: "1" rolls back to height 1, "7" and "-1" are refused. *)
Lemma postRollback_replies_witness :
  postRollback parseInt_digit chain2 (Some "1")
  = (mkReply 200 (RollbackBody 1), snd (rollback chain2 1))
  ∧ getCurrentHeight (snd (postRollback parseInt_digit chain2 (Some "1"))) = 1
  ∧ snd (postRollback parseInt_digit chain2 (Some "7")) = chain2
  ∧ snd (postRollback parseInt_digit chain2 (Some "-1")) = chain2.
Proof.
  destruct (postRollback_replies parseInt_digit chain2 (Some "1"))
    as (_ & _ & Hok & _).
  destruct (Hok "1" 1) as [Hreply Hheight]; [reflexivity|reflexivity|concrete|].
  split; [exact Hreply|]. split.
  - apply Hheight. apply reach_addBlock, reach_addBlock, reach_empty.
  - split.
    + destruct (postRollback_replies parseInt_digit chain2 (Some "7"))
        as (_ & _ & _ & Hkeep).
      apply Hkeep. vm_compute. discriminate.
    + destruct (postRollback_replies parseInt_digit chain2 (Some "-1"))
        as (_ & _ & _ & Hkeep).
      apply Hkeep. vm_compute. discriminate.
Defined.



(** ** The connection pool *)

Lemma pool_states (calls : list ConnCall) :
  foldl connCall None calls = None ∨ foldl connCall None calls = Some newPool.
Proof.
  induction calls as [|c calls IH] using rev_ind; [by left|].
  rewrite foldl_app. simpl. destruct c as [cs|]; [|by left].
  right. simpl. by destruct IH as [-> | ->].
Qed.

(** X27. Starting without a pool, after any sequence of [initializePool]
    and [closePool] calls [getPool] returns a pool exactly when the last
    call was [initializePool], and throws otherwise; the pool has the
    options written in the source, whatever connection strings were
    passed. *)
Theorem pool_lifecycle (calls : list ConnCall) :
  getPool (foldl connCall None calls)
  = match last calls with
    | Some (CallInitialize _) => inr newPool
    | _ => inl "Database pool not initialized. Call initializePool first."
    end.
Proof.
  destruct calls as [|c calls _] using rev_ind; [done|].
  rewrite last_snoc, foldl_app. simpl.
  destruct c as [cs|]; [|done]. simpl.
  by destruct (pool_states calls) as [-> | ->].
Qed.

(** ** Replaying blocks after a rollback *)

Lemma sumInputs_ext c1 c2 ins :
  tbl_outputs c1 = tbl_outputs c2 → sumInputs c1 ins = sumInputs c2 ins.
Proof.
  intros Ho. induction ins as [|i rest IH]; [done|]. simpl.
  unfold getUnspentOutput. by rewrite Ho, IH.
Qed.

Lemma blockDeltas_ext c1 c2 txs :
  tbl_outputs c1 = tbl_outputs c2 → blockDeltas c1 txs = blockDeltas c2 txs.
Proof.
  intros Ho. unfold blockDeltas, debits, getUnspentOutput. by rewrite Ho.
Qed.

Lemma addBlock_same_view db1 db2 b db1' :
  same_view db1 db2 →
  addBlock db1 b = (Returns None, db1') →
  ∃ db2', addBlock db2 b = (Returns None, db2') ∧ same_view db1' db2'.
Proof.
  intros (Hb & Ho & Hbal) E.
  assert (Hcur : getCurrentHeight db1 = getCurrentHeight db2)
    by (unfold getCurrentHeight; by rewrite Hb).
  assert (Hacc : fst (addBlock db2 b) = Returns None).
  { apply addBlock_accepts_criterion.
    assert (Hacc1 : fst (addBlock db1 b) = Returns None) by by rewrite E.
    apply addBlock_accepts_criterion in Hacc1 as (Hh & Hid & Hfresh & Hc & Hfr & Hnd).
    rewrite <- Hcur, <- Hb, <- Ho. repeat (split; [done|]). split; [|done].
    eapply Forall_impl; [exact Hc|]. intros tx (s & Hs & Hbal'). exists s.
    by rewrite <- (sumInputs_ext db1 db2). }
  destruct (addBlock db2 b) as [r db2'] eqn:E2. simpl in Hacc. subst r.
  exists db2'. split; [done|].
  rewrite (addBlock_tables _ _ _ E), (addBlock_tables _ _ _ E2).
  unfold same_view. simpl. rewrite Hb, Ho. split; [done|]. split; [done|].
  intros a. unfold getBalance in *. simpl.
  rewrite !js_or_default, !apply_deltas_lookup, (blockDeltas_ext db1 db2) by done.
  specialize (Hbal a). rewrite !js_or_default in Hbal. lia.
Qed.

Lemma acceptAll_same_view bs : ∀ db1 db2 db1',
  same_view db1 db2 →
  acceptAll db1 bs = Some db1' →
  ∃ db2', acceptAll db2 bs = Some db2' ∧ same_view db1' db2'.
Proof.
  induction bs as [|b bs IH]; intros db1 db2 db1' Hview; simpl.
  - intros [= <-]. by exists db2.
  - destruct (addBlock db1 b) as [[[e|]|e] dbm] eqn:E; [done| |done].
    destruct (addBlock_same_view _ _ _ _ Hview E) as (dbm' & -> & Hview').
    by apply IH.
Qed.

(** X28. Blocks undone by a rollback can be submitted again: after blocks
    accepted from the empty chain, none of the first [n] listing an output
    twice, a rollback to height [n] followed by the same later blocks
    accepts them all and ends with the block rows, the ledger and the
    balances it had before the rollback. *)
Theorem rollback_then_replay bs1 bs2 db1 db2 :
  acceptAll emptyDb bs1 = Some db1 →
  acceptAll db1 bs2 = Some db2 →
  Forall (λ b, NoDup (blockInputs b)) bs1 →
  ∃ db2', acceptAll (snd (rollback db2 (Z.of_nat (length bs1)))) bs2 = Some db2'
          ∧ same_view db2' db2.
Proof.
  intros E1 E2 Hnd.
  destruct (rollback_restores_prefix _ _ _ _ E1 E2 Hnd) as (_ & Hb & Ho & Hbal).
  destruct (acceptAll_same_view bs2 db1 (snd (rollback db2 (Z.of_nat (length bs1)))) db2)
    as (db2' & Hacc & Hb' & Ho' & Hbal'); [|done|].
  - by split; [|split].
  - exists db2'. split; [done|]. by split; [|split].
Qed.

(** The chain of two blocks, rolled back to 1, accepts block 2 again. *)
Lemma rollback_then_replay_witness :
  ∃ db2', acceptAll (snd (rollback chain2 1)) [block2] = Some db2'
          ∧ same_view db2' chain2.
Proof.
  apply (rollback_then_replay [block1] [block2] chain1 chain2).
  - concrete.
  - concrete.
  - constructor; [|constructor]. vm_compute. constructor.
Defined.

(** ** The error for a missing input *)

(** X29. [addBlock] returns [UnspentOutputNotFound] only for an input of
    the block for which the committed ledger holds no unspent row, whatever
    the transactions before it in the block created or spent; and a block
    with such an input is never accepted. *)
Theorem addBlock_missing_input db b :
  (∀ txid idx,
     fst (addBlock db b) = Returns (Some (UnspentOutputNotFound txid idx)) →
     ∃ tx i, tx ∈ transactions b ∧ i ∈ inputs tx
             ∧ txId i = txid ∧ index i = idx
             ∧ getUnspentOutput db txid idx = None)
  ∧ (∀ tx i, tx ∈ transactions b → i ∈ inputs tx →
             getUnspentOutput db (txId i) (index i) = None →
             fst (addBlock db b) ≠ Returns None).
Proof.
  split.
  - intros txid idx E. pose proof (addBlock_run db b) as Hrun.
    destruct (addBlock db b) as [r db']. simpl in E. subst r.
    destruct Hrun as [_ [[_ [=]]|[(_ & _ & [=])|(_ & _ & Hex)]]].
    apply Exists_exists in Hex as (tx & Htx & [Hm|Hu]).
    + destruct Hm as (i & Hi & [= -> ->] & Hnone). by exists tx, i.
    + by destruct Hu as (s & _ & _ & _ & [=]).
  - intros tx i Htx Hi Hnone Hacc.
    pose proof (addBlock_run db b) as Hrun.
    destruct (addBlock db b) as [r db']. simpl in Hacc. subst r.
    destruct Hrun as (_ & _ & _ & Hc & _).
    rewrite Forall_forall in Hc. destruct (Hc tx Htx) as (s & Hs & _).
    destruct (sumInputs_Some _ _ _ i Hs Hi) as [o Ho]. congruence.
Qed.

(** The second transaction of the block refers to an output nobody
    created. *)
Lemma addBlock_missing_input_witness :
  (∃ tx i, tx ∈ transactions block2_late_error ∧ i ∈ inputs tx
           ∧ txId i = "nonexistent" ∧ index i = 0
           ∧ getUnspentOutput chain1 "nonexistent" 0 = None)
  ∧ fst (addBlock chain1 block2_late_error) ≠ Returns None.
Proof.
  destruct (addBlock_missing_input chain1 block2_late_error) as [Honly Hnever].
  split.
  - apply Honly. concrete.
  - apply (Hnever tx_missing (mkInput "nonexistent" 0)).
    + right. by left.
    + by left.
    + concrete.
Defined.
